(** * MovingAveragesDistance: a shallow embedding of [solution.py]

    The algorithm class [MovingAveragesDistance] and its helper [SymbolData]
    are embedded as pure functions over an explicit algorithm state.  The
    callbacks that the backtesting host drives ([CoarseSelectionFunction],
    [FineSelectionFunction], [OnData], [Selection]) are the steps of a
    transition system whose reachable states carry the invariants used
    below.

    Numbers.  Python and numpy floats are modelled by [float64]: a finite
    value is an exact rational (rounding is idealised away), and the IEEE
    special values are kept, so that numpy's division by zero yields an
    infinity or a NaN instead of raising, as it does in the source, while
    Python's [int / int] raises [ZeroDivisionError].

    Host.  The price history, the securities and the order sink belong to
    the host: [History] and [Securities] are parameters of the callbacks
    and the orders are returned as a list.  [OnSecuritiesChanged] and
    [CustomFeeModel] only configure host securities and touch no field of
    the algorithm; they are left out. *)

From Stdlib Require Import QArith Qabs Qcanon.
From stdpp Require Import base numbers list strings gmap sorting.

Local Open Scope Qc_scope.

(** ** Floating-point values *)

Inductive float64 : Type :=
  | Finite (q : Qc)
  | PosInf
  | NegInf
  | NaN.

Definition Qc_of_nat (n : nat) : Qc := Qc_of_Z (Z.of_nat n).

Definition Qc_leb (x y : Qc) : bool := Qle_bool x y.
Definition Qc_ltb (x y : Qc) : bool := negb (Qle_bool y x).
Definition Qc_eqb (x y : Qc) : bool := Qeq_bool x y.

Definition float_of_Z (n : Z) : float64 := Finite (Qc_of_Z n).
Definition float_of_nat (n : nat) : float64 := Finite (Qc_of_nat n).

Definition is_finite (x : float64) : bool :=
  match x with Finite _ => true | _ => false end.

(** [x + y] on floats. *)
Definition float_add (x y : float64) : float64 :=
  match x, y with
  | NaN, _ | _, NaN => NaN
  | PosInf, NegInf | NegInf, PosInf => NaN
  | PosInf, _ | _, PosInf => PosInf
  | NegInf, _ | _, NegInf => NegInf
  | Finite a, Finite b => Finite (a + b)
  end.

Definition float_abs (x : float64) : float64 :=
  match x with
  | Finite a => Finite (if Qc_ltb a 0 then - a else a)
  | PosInf | NegInf => PosInf
  | NaN => NaN
  end.

(** [x / y] on numpy floats: a zero divisor gives an infinity or a NaN
    (with a warning), never an exception.  Zero is taken as [+0]. *)
Definition np_div (x y : float64) : float64 :=
  match x, y with
  | NaN, _ | _, NaN => NaN
  | Finite a, Finite b =>
      if Qc_eqb b 0 then
        if Qc_eqb a 0 then NaN
        else if Qc_ltb 0 a then PosInf else NegInf
      else Finite (a / b)
  | Finite _, (PosInf | NegInf) => Finite 0
  | (PosInf | NegInf), (PosInf | NegInf) => NaN
  | PosInf, Finite b => if Qc_ltb b 0 then NegInf else PosInf
  | NegInf, Finite b => if Qc_ltb b 0 then PosInf else NegInf
  end.

(** Comparisons; every comparison with a NaN is false, except [!=]. *)
Definition float_le (x y : float64) : bool :=
  match x, y with
  | NaN, _ | _, NaN => false
  | NegInf, _ | _, PosInf => true
  | PosInf, _ | _, NegInf => false
  | Finite a, Finite b => Qc_leb a b
  end.

Definition float_lt (x y : float64) : bool :=
  match x, y with
  | NaN, _ | _, NaN => false
  | PosInf, _ | _, NegInf => false
  | NegInf, _ | _, PosInf => true
  | Finite a, Finite b => Qc_ltb a b
  end.

Definition float_ge (x y : float64) : bool := float_le y x.
Definition float_gt (x y : float64) : bool := float_lt y x.

Definition float_ne (x y : float64) : bool :=
  match x, y with
  | NaN, _ | _, NaN => true
  | Finite a, Finite b => negb (Qc_eqb a b)
  | PosInf, PosInf | NegInf, NegInf => false
  | _, _ => true
  end.

(** [np.average(l)]: the sum divided by the number of elements; the
    average of an empty list is [0 / 0], a NaN. *)
Definition np_sum (l : list float64) : float64 :=
  fold_left float_add l (Finite 0).

Definition np_average (l : list float64) : float64 :=
  np_div (np_sum l) (float_of_nat (length l)).

Local Close Scope Qc_scope.

(** ** Exceptions *)

(** A symbol is identified by its ticker. *)
Abbreviation Symbol := string (only parsing).

Inductive exn : Type :=
  | KeyError (key : Symbol)
  | ZeroDivisionError.

Inductive result (A : Type) : Type :=
  | Ok (a : A)
  | Raise (e : exn).
Arguments Ok {A} a.
Arguments Raise {A} e.

Global Instance result_ret : MRet result := λ A a, Ok a.
Global Instance result_bind : MBind result := λ A B k m,
  match m with
  | Ok a => k a
  | Raise e => Raise e
  end.

(** [a / b] on Python integers: true division, raising on a zero divisor. *)
Definition py_truediv (a b : Z) : result float64 :=
  if decide (b = 0%Z) then Raise ZeroDivisionError
  else Ok (Finite (Qc_of_Z a / Qc_of_Z b)%Qc).

(** ** The host's rolling window *)

Module RollingWindow.

(** Modelled from the spec: the class [RollingWindow] belongs to the
    backtesting host and its code is not part of the repository.  It is
    a "fixed-capacity ordered buffer of the most recent N daily closing
    prices, insertion-order, oldest evicted on overflow once full". *)
Record t : Type := mk { Size : nat; items : list float64 }.

(** Modelled from the spec: [RollingWindow[float](size)], an empty buffer
    of the given capacity. *)
Definition new (size : nat) : t := {| Size := size; items := [] |}.

(** Modelled from the spec: [Add] "appends newest price, evicts oldest
    once capacity exceeded". *)
Definition Add (w : t) (x : float64) : t :=
  let l := items w ++ [x] in
  {| Size := Size w; items := drop (length l - Size w) l |}.

(** Modelled from the spec: the buffer length. *)
Definition Count (w : t) : nat := length (items w).

(** Modelled from the spec: "ready when length == 200", the capacity. *)
Definition IsReady (w : t) : bool := bool_decide (Count w = Size w).

(** Modelled from the spec: iterating the window "returns prices
    newest-first". *)
Definition iter (w : t) : list float64 := reverse (items w).

End RollingWindow.

(** ** class SymbolData *)

Module SymbolData.

Record t : Type := mk { Symbol : Symbol; Prices : RollingWindow.t }.

(** [__init__(self, symbol, period)] *)
Definition init (symbol : string) (period : nat) : t :=
  {| Symbol := symbol; Prices := RollingWindow.new period |}.

Definition update (self : t) (price : float64) : t :=
  {| Symbol := Symbol self; Prices := RollingWindow.Add (Prices self) price |}.

Definition is_ready (self : t) : bool := RollingWindow.IsReady (Prices self).

(** [for close in closes: self.update(close)] *)
Definition feed (self : t) (closes : list float64) : t :=
  fold_left update closes self.

Definition return_prices (self : t) : list float64 :=
  RollingWindow.iter (Prices self).

End SymbolData.

(** ** Host records read by the algorithm *)

Module CoarseFundamental.
Record t : Type := mk {
  Symbol : Symbol;
  AdjustedPrice : float64;
  HasFundamentalData : bool;
  Market : string;
  Price : float64;
  DollarVolume : float64
}.
End CoarseFundamental.

Module FineFundamental.
(** [ExchangeId] stands for [x.SecurityReference.ExchangeId]. *)
Record t : Type := mk { Symbol : Symbol; ExchangeId : string }.
End FineFundamental.

Module Security.
Record t : Type := mk { Price : float64; IsTradable : bool }.
End Security.

(** What a coarse selection hands back to the host. *)
Inductive universe : Type :=
  | Unchanged
  | Selected (symbols : list Symbol).

(** Orders sent to the host. *)
Inductive action : Type :=
  | Liquidate
  | SetHoldings (symbol : Symbol) (weight : float64).

(** ** A Python dict from symbols to floats, in insertion order *)

Abbreviation pydict := (list (Symbol * float64)) (only parsing).

(** [d[k] = v]: an existing key keeps its place. *)
Fixpoint dict_set (k : Symbol) (v : float64) (d : pydict) : pydict :=
  match d with
  | [] => [(k, v)]
  | (k', v') :: d' =>
      if decide (k' = k) then (k, v) :: d' else (k', v') :: dict_set k v d'
  end.

Fixpoint dict_get (k : Symbol) (d : pydict) : option float64 :=
  match d with
  | [] => None
  | (k', v') :: d' => if decide (k' = k) then Some v' else dict_get k d'
  end.

(** ** class MovingAveragesDistance *)

Module MovingAveragesDistance.

Record t : Type := mk {
  coarse_count : nat;
  period : nat;
  data : gmap Symbol SymbolData.t;
  long : list Symbol;
  short : list Symbol;
  symbol : Symbol;
  selection_flag : bool
}.

Definition set_data (self : t) (d : gmap Symbol SymbolData.t) : t :=
  mk (coarse_count self) (period self) d (long self) (short self)
     (symbol self) (selection_flag self).

Definition set_long_short (self : t) (l s : list Symbol) : t :=
  mk (coarse_count self) (period self) (data self) l s
     (symbol self) (selection_flag self).

Definition set_selection_flag (self : t) (b : bool) : t :=
  mk (coarse_count self) (period self) (data self) (long self) (short self)
     (symbol self) b.

(** [Initialize]: the calls that only configure the host (start date,
    cash, universe and schedule registration) leave the algorithm's own
    fields alone and are not modelled. *)
Definition Initialize : t :=
  {| coarse_count := 500;
     period := 200;
     data := ∅;
     long := [];
     short := [];
     symbol := "SPY";
     selection_flag := false |}.

(** *** CoarseSelectionFunction *)

(** Lines 40-45: every stock with a window gets today's adjusted price. *)
Definition update_known (d : gmap Symbol SymbolData.t)
    (stock : CoarseFundamental.t) : gmap Symbol SymbolData.t :=
  let symbol := CoarseFundamental.Symbol stock in
  match d !! symbol with
  | Some sd =>
      <[symbol := SymbolData.update sd (CoarseFundamental.AdjustedPrice stock)]> d
  | None => d
  end.

Definition tradable_stock (x : CoarseFundamental.t) : bool :=
  CoarseFundamental.HasFundamentalData x
  && bool_decide (CoarseFundamental.Market x = "usa")
  && float_gt (CoarseFundamental.Price x) (float_of_Z 5).

(** [sorted(..., key=lambda x: x.DollarVolume, reverse=True)]: a stable
    sort, largest dollar volume first. *)
Fixpoint insert_by_dollar_volume (x : CoarseFundamental.t)
    (l : list CoarseFundamental.t) : list CoarseFundamental.t :=
  match l with
  | [] => [x]
  | y :: l' =>
      if float_gt (CoarseFundamental.DollarVolume y)
                  (CoarseFundamental.DollarVolume x)
      then y :: insert_by_dollar_volume x l'
      else x :: y :: l'
  end.

Definition sorted_by_dollar_volume (coarse : list CoarseFundamental.t)
    : list CoarseFundamental.t :=
  foldr insert_by_dollar_volume [] (filter (λ x, tradable_stock x) coarse).

(** Lines 57-68, one round of the warm-up loop.  [History symbol n] is
    the host's list of up to [n] daily closes, oldest first; the object
    stored under [symbol] is the one the inner loop updates.  The log
    line written for an empty history goes to the host only. *)
Definition warmup (History : Symbol → nat → list float64) (period : nat)
    (d : gmap Symbol SymbolData.t) (symbol : Symbol)
    : gmap Symbol SymbolData.t :=
  match d !! symbol with
  | Some _ => d
  | None =>
      let sd := SymbolData.init symbol period in
      let history := History symbol period in
      match history with
      | [] => <[symbol := sd]> d
      | _ => <[symbol := SymbolData.feed sd history]> d
      end
  end.

(** Line 70, [[x for x in selected if self.data[x].is_ready()]]. *)
Fixpoint ready_symbols (d : gmap Symbol SymbolData.t)
    (selected : list Symbol) : result (list Symbol) :=
  match selected with
  | [] => mret []
  | x :: rest =>
      match d !! x with
      | None => Raise (KeyError x)
      | Some sd =>
          if SymbolData.is_ready sd
          then (r ← ready_symbols d rest; mret (x :: r))
          else ready_symbols d rest
      end
  end.

Definition CoarseSelectionFunction (History : Symbol → nat → list float64)
    (self : t) (coarse : list CoarseFundamental.t) : result (t * universe) :=
  let d1 := fold_left update_known coarse (data self) in
  if negb (selection_flag self) then mret (set_data self d1, Unchanged)
  else
    let selected :=
      CoarseFundamental.Symbol <$> sorted_by_dollar_volume coarse in
    let d2 := fold_left (warmup History (period self)) selected d1 in
    ready ← ready_symbols d2 selected;
    mret (set_data self d2, Selected (take (coarse_count self) ready)).

(** *** FineSelectionFunction *)

Definition listed_exchange (x : FineFundamental.t) : bool :=
  bool_decide (FineFundamental.ExchangeId x = "NYS")
  || bool_decide (FineFundamental.ExchangeId x = "NAS")
  || bool_decide (FineFundamental.ExchangeId x = "ASE").

(** Lines 75-83: the loop that fills the local dict [MAD]. *)
Fixpoint compute_MAD (d : gmap Symbol SymbolData.t)
    (fine : list FineFundamental.t) (MAD : pydict) : result pydict :=
  match fine with
  | [] => mret MAD
  | stock :: rest =>
      let symbol := FineFundamental.Symbol stock in
      match d !! symbol with
      | None => Raise (KeyError symbol)
      | Some sd =>
          let prices := SymbolData.return_prices sd in
          let ma21 := np_average (take 21 prices) in
          let ma200 := np_average prices in
          compute_MAD d rest (dict_set symbol (np_div ma21 ma200) MAD)
      end
  end.

Definition long_threshold : float64 := Finite (Q2Qc (12 # 10)).
Definition short_threshold : float64 := Finite (Q2Qc (8 # 10)).

Definition select_long (MAD : pydict) : list Symbol :=
  fst <$> filter (λ x, float_ge (snd x) long_threshold) MAD.

Definition select_short (MAD : pydict) : list Symbol :=
  fst <$> filter (λ x, float_le (snd x) short_threshold) MAD.

Definition FineSelection_MAD (self : t) (fine : list FineFundamental.t)
    : result pydict :=
  compute_MAD (data self) (filter (λ x, listed_exchange x) fine) [].

Definition FineSelectionFunction (self : t) (fine : list FineFundamental.t)
    : result (t * list Symbol) :=
  MAD ← FineSelection_MAD self fine;
  let l := select_long MAD in
  let s := select_short MAD in
  mret (set_long_short self l s, l ++ s).

(** *** OnData *)

Definition can_trade (sec : Security.t) : bool :=
  float_ne (Security.Price sec) (Finite 0%Qc) && Security.IsTradable sec.

(** Lines 100-102 and 104-106: one loop over a side; the weight
    [num / count] is evaluated inside the guard, once per symbol. *)
Fixpoint allocate (Securities : Symbol → Security.t)
    (symbols : list Symbol) (num count : Z) : result (list action) :=
  match symbols with
  | [] => mret []
  | symbol :: rest =>
      if can_trade (Securities symbol)
      then (w ← py_truediv num count;
            acts ← allocate Securities rest num count;
            mret (SetHoldings symbol w :: acts))
      else allocate Securities rest num count
  end.

Definition OnData (Securities : Symbol → Security.t) (self : t)
    : result (t * list action) :=
  if negb (selection_flag self) then mret (self, [])
  else
    let count_long := Z.of_nat (length (long self)) in
    let count_short := Z.of_nat (length (short self)) in
    longs ← allocate Securities (long self) 1 count_long;
    shorts ← allocate Securities (short self) (-1) count_short;
    mret (set_long_short (set_selection_flag self false) [] [],
          Liquidate :: longs ++ shorts).

Definition Selection (self : t) : t := set_selection_flag self true.

(** *** The host drives the callbacks in any order *)

Inductive step : t → t → Prop :=
  | step_Coarse History self coarse self' u :
      CoarseSelectionFunction History self coarse = Ok (self', u) →
      step self self'
  | step_Fine self fine self' ret :
      FineSelectionFunction self fine = Ok (self', ret) →
      step self self'
  | step_OnData Securities self self' acts :
      OnData Securities self = Ok (self', acts) →
      step self self'
  | step_Selection self :
      step self (Selection self).

Definition reachable (self : t) : Prop := rtc step Initialize self.

End MovingAveragesDistance.

(** ** Vocabulary of the specification *)

(** The [n] most recent prices of a price history given oldest first. *)
Definition most_recent (n : nat) (hist : list float64) : list float64 :=
  take n (reverse hist).

Definition mean (l : list float64) : float64 :=
  np_div (np_sum l) (float_of_nat (length l)).

(** "mean(most recent 21 prices) / mean(all 200 prices in window)" *)
Definition spec_MAD (hist : list float64) : float64 :=
  np_div (mean (most_recent 21 hist)) (mean (most_recent 200 hist)).

(** The ratio computed from one stored window, lines 79-83. *)
Definition window_MAD (sd : SymbolData.t) : float64 :=
  let prices := SymbolData.return_prices sd in
  np_div (np_average (take 21 prices)) (np_average prices).

(** Every listed stock handed to the fine selection has a window. *)
Definition all_known (self : MovingAveragesDistance.t)
    (fine : list FineFundamental.t) : Prop :=
  ∀ x, x ∈ fine → MovingAveragesDistance.listed_exchange x = true →
       is_Some (MovingAveragesDistance.data self !! FineFundamental.Symbol x).

(** The symbols a coarse selection ranks, largest dollar volume first. *)
Definition selected_symbols (coarse : list CoarseFundamental.t) : list Symbol :=
  CoarseFundamental.Symbol <$> MovingAveragesDistance.sorted_by_dollar_volume coarse.

(** The windows as a coarse selection on a rebalance day leaves them. *)
Definition warmed_data (History : Symbol → nat → list float64)
    (self : MovingAveragesDistance.t) (coarse : list CoarseFundamental.t)
    : gmap Symbol SymbolData.t :=
  fold_left
    (MovingAveragesDistance.warmup History (MovingAveragesDistance.period self))
    (selected_symbols coarse)
    (fold_left MovingAveragesDistance.update_known coarse
       (MovingAveragesDistance.data self)).

(** The symbol has a window and the window is ready. *)
Definition ready_in (d : gmap Symbol SymbolData.t) (x : Symbol) : bool :=
  match d !! x with
  | Some sd => SymbolData.is_ready sd
  | None => false
  end.

(** The orders one side of a rebalance produces: one [SetHoldings] with
    the side's weight for every symbol of the side that can be traded. *)
Definition allocations (Securities : Symbol → Security.t)
    (side : list Symbol) (weight : float64) : list action :=
  (λ s, SetHoldings s weight)
    <$> filter (λ s, MovingAveragesDistance.can_trade (Securities s)) side.

(** The weights that a list of orders assigns to the symbols of a side. *)
Definition side_weights (side : list Symbol) (acts : list action)
    : list float64 :=
  acts ≫= λ a,
    match a with
    | SetHoldings s w => if decide (s ∈ side) then [w] else []
    | Liquidate => []
    end.

(** The sum of the absolute values of those weights. *)
Definition gross_weight (side : list Symbol) (acts : list action) : float64 :=
  np_sum (float_abs <$> side_weights side acts).

(** "After each rebalance, the absolute weights on each non-empty side sum
    to 1.0", for one call of [OnData]. *)
Definition sides_sum_to_one (Securities : Symbol → Security.t)
    (self : MovingAveragesDistance.t) : Prop :=
  ∀ self' acts,
    MovingAveragesDistance.OnData Securities self = Ok (self', acts) →
    (MovingAveragesDistance.long self ≠ [] →
     gross_weight (MovingAveragesDistance.long self) acts = Finite 1%Qc)
    ∧ (MovingAveragesDistance.short self ≠ [] →
       gross_weight (MovingAveragesDistance.short self) acts = Finite 1%Qc).

(** A window of period 200 that was created for [symbol] and then fed. *)
Definition fed_window (symbol : Symbol) (sd : SymbolData.t) : Prop :=
  ∃ hist, sd = SymbolData.feed (SymbolData.init symbol 200) hist.

(** What every reachable state of the algorithm satisfies. *)
Record Inv (self : MovingAveragesDistance.t) : Prop := {
  Inv_coarse_count : MovingAveragesDistance.coarse_count self = 500;
  Inv_period : MovingAveragesDistance.period self = 200;
  Inv_data : map_Forall fed_window (MovingAveragesDistance.data self);
  Inv_long : NoDup (MovingAveragesDistance.long self);
  Inv_short : NoDup (MovingAveragesDistance.short self);
  Inv_disjoint :
    ∀ x, x ∈ MovingAveragesDistance.long self →
         x ∉ MovingAveragesDistance.short self
}.

(** ** Fixtures *)

(** [[100]*179 + [last]*21], oldest price first. *)
Definition fixture (last : Z) : list float64 :=
  replicate 179 (float_of_Z 100) ++ replicate 21 (float_of_Z last).

(** A host whose price history is one of the fixtures for five symbols,
    all zeros for a sixth, and ten days long for any other symbol. *)
Definition fixture_History (s : Symbol) (n : nat) : list float64 :=
  if decide (s = "AAA") then fixture 120
  else if decide (s = "BBB") then fixture 130
  else if decide (s = "CCC") then fixture 60
  else if decide (s = "DDD") then fixture 140
  else if decide (s = "ZZZ") then replicate 200 (float_of_Z 0)
  else replicate 10 (float_of_Z 50).

Definition fixture_stock (s : Symbol) (volume : Z) : CoarseFundamental.t :=
  {| CoarseFundamental.Symbol := s;
     CoarseFundamental.AdjustedPrice := float_of_Z 100;
     CoarseFundamental.HasFundamentalData := true;
     CoarseFundamental.Market := "usa";
     CoarseFundamental.Price := float_of_Z 100;
     CoarseFundamental.DollarVolume := float_of_Z volume |}.

Definition fixture_coarse : list CoarseFundamental.t :=
  [fixture_stock "AAA" 5; fixture_stock "BBB" 7; fixture_stock "NEW" 9;
   fixture_stock "CCC" 1; fixture_stock "DDD" 3; fixture_stock "ZZZ" 7].

Definition fixture_listed (s : Symbol) : FineFundamental.t :=
  {| FineFundamental.Symbol := s; FineFundamental.ExchangeId := "NYS" |}.

Definition fixture_fine : list FineFundamental.t :=
  fixture_listed <$> ["AAA"; "BBB"; "CCC"; "DDD"; "ZZZ"].

(** The first rebalance day: the schedule has fired ... *)
Definition fixture_day : MovingAveragesDistance.t :=
  MovingAveragesDistance.Selection MovingAveragesDistance.Initialize.

(** ... the coarse selection has warmed the windows up ... *)
Definition fixture_warm : MovingAveragesDistance.t :=
  MovingAveragesDistance.set_data fixture_day
    (warmed_data fixture_History fixture_day fixture_coarse).

(** ... and the fine selection has ranked the symbols. *)
Definition fixture_ranked : MovingAveragesDistance.t :=
  match MovingAveragesDistance.FineSelectionFunction fixture_warm fixture_fine with
  | Ok (self, _) => self
  | Raise _ => fixture_warm
  end.

(** A host on which "DDD" cannot be traded. *)
Definition fixture_Securities (s : Symbol) : Security.t :=
  {| Security.Price := float_of_Z 100;
     Security.IsTradable := bool_decide (s ≠ "DDD") |}.

(** A rebalance day on which only "CCC" is handed to the fine selection,
    so that the long side is empty. *)
Definition fixture_short_only : MovingAveragesDistance.t :=
  match MovingAveragesDistance.FineSelectionFunction fixture_warm
          [fixture_listed "CCC"] with
  | Ok (self, _) => self
  | Raise _ => fixture_warm
  end.

(** The locals of the fine selection's loop for a fixture symbol. *)
Definition fixture_ma_short (s : Symbol) : float64 :=
  match MovingAveragesDistance.data fixture_warm !! s with
  | Some sd => np_average (take 21 (SymbolData.return_prices sd))
  | None => NaN
  end.

Definition fixture_ma_long (s : Symbol) : float64 :=
  match MovingAveragesDistance.data fixture_warm !! s with
  | Some sd => np_average (SymbolData.return_prices sd)
  | None => NaN
  end.

Definition fixture_MAD (s : Symbol) : float64 :=
  match MovingAveragesDistance.FineSelection_MAD fixture_warm fixture_fine with
  | Ok MAD => default NaN (dict_get s MAD)
  | Raise _ => NaN
  end.

(** [x] is a finite number within [tol] of [c]. *)
Definition approx (x : float64) (c tol : Q) : bool :=
  match x with
  | Finite q => Qle_bool (Qabs (q - c)) tol
  | _ => false
  end.

(** The hand-computed fixture values as the specification lists them, each
    "≈" read as "within one unit of the last digit written". *)
Definition fixtures_as_stated : Prop :=
  fixture_ma_short "AAA" = Finite (Qc_of_Z 120)
  ∧ approx (fixture_ma_long "AAA") (1022 # 10) (1 # 10) = true
  ∧ approx (fixture_MAD "AAA") (1174 # 1000) (1 # 1000) = true
  ∧ ("AAA" ∉ MovingAveragesDistance.long fixture_ranked)
  ∧ ("AAA" ∉ MovingAveragesDistance.short fixture_ranked)
  ∧ approx (fixture_MAD "BBB") (127 # 100) (1 # 100) = true
  ∧ "BBB" ∈ MovingAveragesDistance.long fixture_ranked
  ∧ approx (fixture_MAD "CCC") (79 # 100) (1 # 100) = true
  ∧ "CCC" ∈ MovingAveragesDistance.short fixture_ranked.

(** ** class CustomFeeModel *)


Module CustomFeeModel.



End CustomFeeModel.

(** ** More vocabulary *)

(** The adjusted prices that a coarse list carries for one symbol, in the
    order of the list. *)
Definition prices_for (s : Symbol) (coarse : list CoarseFundamental.t)
    : list float64 :=
  CoarseFundamental.AdjustedPrice
    <$> filter (λ x, CoarseFundamental.Symbol x = s) coarse.

(** The symbols that a list of orders sets holdings for, in order. *)
Definition order_symbols (acts : list action) : list Symbol :=
  omap (λ a, match a with
             | SetHoldings s _ => Some s
             | Liquidate => None
             end) acts.



(** The state the rebalance on the fixture day leaves behind. *)
Definition fixture_done : MovingAveragesDistance.t :=
  match MovingAveragesDistance.OnData fixture_Securities fixture_ranked with
  | Ok (self, _) => self
  | Raise _ => fixture_ranked
  end.

Global Instance float64_eq_dec : EqDecision float64.
Proof. solve_decision. Defined.

(** * Properties *)

(** ** Comparisons and thresholds *)

Lemma Qc_leb_le (x y : Qc) : Qc_leb x y = true ↔ (x ≤ y)%Qc.
Proof. unfold Qc_leb, Qcle. apply Qle_bool_iff. Qed.

Lemma Qc_ltb_lt (x y : Qc) : Qc_ltb x y = true ↔ (x < y)%Qc.
Proof.
  unfold Qc_ltb. rewrite negb_true_iff, <- not_true_iff_false.
  rewrite (Qc_leb_le y x). symmetry. apply Qclt_nge.
Qed.


(** No value is both at or above the long threshold and at or below the
    short one. *)
Lemma thresholds_exclusive (v : float64) :
  float_ge v MovingAveragesDistance.long_threshold = true →
  float_le v MovingAveragesDistance.short_threshold = true →
  False.
Proof.
  unfold float_ge. destruct v as [q| | |]; simpl; try discriminate.
  rewrite !Qc_leb_le. intros H1 H2.
  assert (H : (Q2Qc (12 # 10) ≤ Q2Qc (8 # 10))%Qc) by (by etrans).
  revert H. by vm_compute.
Qed.

(** ** The rolling window *)

Section window.
Import RollingWindow.

Lemma fold_Add_Size xs w : Size (fold_left Add xs w) = Size w.
Proof.
  revert w. induction xs as [|x xs IH]; intros w; simpl; [done|].
  by rewrite IH.
Qed.

Lemma Add_Count w x : Count (Add w x) = min (S (Count w)) (Size w).
Proof.
  unfold Count, Add; cbn [items Size]. rewrite length_drop, length_app.
  cbn [length]. lia.
Qed.

(** After any run of additions the window holds the newest elements, as
    many as fit. *)
Lemma fold_Add_items xs w :
  Count w ≤ Size w →
  items (fold_left Add xs w)
  = drop (length (items w ++ xs) - Size w) (items w ++ xs).
Proof.
  revert w. induction xs as [|x xs IH]; intros w Hw; simpl.
  - rewrite app_nil_r. unfold Count in Hw.
    by replace (length (items w) - Size w) with 0 by lia.
  - rewrite IH by (rewrite Add_Count; cbn [Size Add]; lia).
    unfold Add; simpl. set (l := items w ++ [x]).
    replace (items w ++ x :: xs) with (l ++ xs)
      by (unfold l; by rewrite <- app_assoc).
    assert (Hl : length l = S (Count w))
      by (unfold l, Count; rewrite length_app; simpl; lia).
    rewrite <- (drop_app_le l xs) by lia.
    rewrite drop_drop. f_equal.
    rewrite length_drop, !length_app. lia.
Qed.

End window.

(** ** SymbolData *)

Section symbol_data.
Import SymbolData.

Lemma feed_Prices xs sd :
  Prices (feed sd xs) = fold_left RollingWindow.Add xs (Prices sd).
Proof.
  unfold feed. revert sd. induction xs as [|x xs IH]; intros sd; simpl; [done|].
  by rewrite IH.
Qed.

Lemma feed_app sd xs ys : feed sd (xs ++ ys) = feed (feed sd xs) ys.
Proof. unfold feed. by rewrite fold_left_app. Qed.

Lemma feed_Size symbol n xs :
  RollingWindow.Size (Prices (feed (init symbol n) xs)) = n.
Proof. by rewrite feed_Prices, fold_Add_Size. Qed.

Lemma feed_items symbol n xs :
  RollingWindow.items (Prices (feed (init symbol n) xs))
  = drop (length xs - n) xs.
Proof.
  rewrite feed_Prices, fold_Add_items by (cbn; lia). done.
Qed.

Lemma feed_Count symbol n xs :
  RollingWindow.Count (Prices (feed (init symbol n) xs)) = min (length xs) n.
Proof. unfold RollingWindow.Count. rewrite feed_items, length_drop. lia. Qed.

(** The snapshot of a window fed with [xs] is the newest-first list of
    the last [n] prices fed. *)
Lemma feed_return_prices symbol n xs :
  return_prices (feed (init symbol n) xs) = take n (reverse xs).
Proof.
  unfold return_prices, RollingWindow.iter. rewrite feed_items, reverse_drop.
  destruct (decide (n ≤ length xs)).
  - f_equal. lia.
  - rewrite !take_ge; [done|rewrite length_reverse; lia..].
Qed.

Lemma feed_is_ready symbol n xs :
  is_ready (feed (init symbol n) xs) = true ↔ n ≤ length xs.
Proof.
  unfold is_ready, RollingWindow.IsReady.
  rewrite bool_decide_eq_true, feed_Count, feed_Size. lia.
Qed.

End symbol_data.

(** C7.  A window created with period 200 and fed any sequence of prices
    never holds more than 200 of them; it is ready exactly when it holds
    200; an update of a full window appends the new price and drops the
    oldest one, an update of a window that is not yet full only appends. *)
Theorem SymbolData_window_bounded (symbol : Symbol) (prices : list float64) :
  let sd := SymbolData.feed (SymbolData.init symbol 200) prices in
  let stored x := RollingWindow.items (SymbolData.Prices x) in
  length (stored sd) ≤ 200
  ∧ (SymbolData.is_ready sd = true ↔ length (stored sd) = 200)
  ∧ ∀ price,
      (length (stored sd) = 200 →
         stored (SymbolData.update sd price) = drop 1 (stored sd) ++ [price])
      ∧ (length (stored sd) < 200 →
         stored (SymbolData.update sd price) = stored sd ++ [price])
      ∧ SymbolData.return_prices (SymbolData.update sd price)
        = take 200 (price :: SymbolData.return_prices sd).
Proof.
  intros sd stored.
  assert (Hlen : length (stored sd) = min (length prices) 200)
    by apply feed_Count.
  assert (Hsz : RollingWindow.Size (SymbolData.Prices sd) = 200)
    by apply feed_Size.
  split; [lia|]. split.
  - unfold SymbolData.is_ready, RollingWindow.IsReady.
    rewrite bool_decide_eq_true, Hsz. done.
  - intros price.
    assert (Hup : stored (SymbolData.update sd price)
                  = drop (length (stored sd ++ [price]) - 200) (stored sd ++ [price])).
    { unfold stored, SymbolData.update, RollingWindow.Add; cbn.
      fold (stored sd). by rewrite Hsz. }
    rewrite length_app in Hup; cbn [length] in Hup.
    split; [|split].
    + intros H200. rewrite Hup, H200.
      replace (200 + 1 - 200) with 1 by lia.
      rewrite drop_app_le by lia. done.
    + intros Hlt. rewrite Hup.
      by replace (length (stored sd) + 1 - 200) with 0 by lia.
    + unfold SymbolData.return_prices, RollingWindow.iter.
      fold (stored sd) (stored (SymbolData.update sd price)).
      rewrite Hup, reverse_drop, reverse_snoc, length_app. cbn [length].
      destruct (decide (length (stored sd) + 1 ≤ 200)).
      * rewrite !take_ge; [done|cbn; rewrite length_reverse; lia..].
      * f_equal. lia.
Qed.

Lemma SymbolData_window_bounded_witness :
  let sd := SymbolData.feed (SymbolData.init "SPY" 200)
              (replicate 200 (float_of_Z 1)) in
  SymbolData.is_ready sd = true
  ∧ RollingWindow.items (SymbolData.Prices (SymbolData.update sd (float_of_Z 2)))
    = drop 1 (RollingWindow.items (SymbolData.Prices sd)) ++ [float_of_Z 2].
Proof.
  intros sd.
  destruct (SymbolData_window_bounded "SPY" (replicate 200 (float_of_Z 1)))
    as (_ & Hready & Hupd).
  destruct (Hupd (float_of_Z 2)) as (Hfull & _ & _).
  split.
  - apply Hready. vm_compute. reflexivity.
  - apply Hfull. vm_compute. reflexivity.
Defined.

(** ** The dict [MAD] *)

Lemma dict_get_set k k' v (d : pydict) :
  dict_get k' (dict_set k v d) = if decide (k = k') then Some v else dict_get k' d.
Proof.
  induction d as [|[k0 v0] d IH]; simpl.
  - repeat case_decide; congruence.
  - destruct (decide (k0 = k)) as [->|Hne]; simpl.
    + repeat case_decide; congruence.
    + rewrite IH. repeat case_decide; congruence.
Qed.

Lemma dict_set_keys k v (d : pydict) :
  (dict_set k v d).*1 = if decide (k ∈ d.*1) then d.*1 else d.*1 ++ [k].
Proof.
  induction d as [|[k0 v0] d IH].
  - cbn. case_decide as H; [inversion H|reflexivity].
  - cbn [dict_set]. destruct (decide (k0 = k)) as [->|Hne].
    + clear IH. rewrite !fmap_cons. cbn [fst]. case_decide as H; [done|].
      destruct H. apply elem_of_cons; by left.
    + rewrite !fmap_cons, IH. cbn [fst].
      destruct (decide (k ∈ d.*1)) as [Hin|Hnin];
        destruct (decide (k ∈ k0 :: d.*1)) as [H|H]; try done.
      * destruct H. apply elem_of_cons; by right.
      * apply elem_of_cons in H as [?|?]; congruence.
Qed.

Lemma dict_set_NoDup k v (d : pydict) : NoDup d.*1 → NoDup (dict_set k v d).*1.
Proof.
  intros Hd. rewrite dict_set_keys. case_decide; [done|].
  apply NoDup_app. split_and!; [done| |apply NoDup_singleton].
  intros x Hx Hk. apply elem_of_cons in Hk as [->|Hk]; [done|inversion Hk].
Qed.

Lemma dict_get_elem k v (d : pydict) :
  NoDup d.*1 → dict_get k d = Some v ↔ (k, v) ∈ d.
Proof.
  induction d as [|[k0 v0] d IH]; simpl; intros Hd.
  - split; [discriminate|]. intros H; inversion H.
  - apply NoDup_cons in Hd as [Hk0 Hd]. rewrite elem_of_cons.
    destruct (decide (k0 = k)) as [->|Hne].
    + split.
      * intros [= ->]. by left.
      * intros [[= ->]|Hin]; [done|].
        destruct Hk0. apply list_elem_of_fmap. by exists (k, v).
    + rewrite IH by done. split; [by right|].
      intros [[= ? ?]|Hin]; [congruence|done].
Qed.

Section fine_selection.
Import MovingAveragesDistance.

Lemma compute_MAD_lookup d fine M M' :
  compute_MAD d fine M = Ok M' →
  ∀ s, dict_get s M'
       = if decide (s ∈ FineFundamental.Symbol <$> fine)
         then window_MAD <$> d !! s else dict_get s M.
Proof.
  revert M. induction fine as [|stock rest IH]; intros M; cbn [compute_MAD].
  - intros [= <-] s. case_decide as H; [inversion H|done].
  - destruct (d !! FineFundamental.Symbol stock) as [sd|] eqn:Hsd; [|done].
    intros HM s. rewrite (IH _ HM s), dict_get_set, fmap_cons.
    destruct (decide (s ∈ FineFundamental.Symbol <$> rest)) as [Hin|Hnin].
    + rewrite decide_True; [done|]. apply elem_of_cons; by right.
    + destruct (decide (FineFundamental.Symbol stock = s)) as [<-|Hne].
      * rewrite decide_True by (apply elem_of_cons; by left).
        by rewrite Hsd.
      * rewrite decide_False; [done|].
        intros [?|?]%elem_of_cons; congruence.
Qed.

Lemma compute_MAD_NoDup d fine M M' :
  compute_MAD d fine M = Ok M' → NoDup M.*1 → NoDup M'.*1.
Proof.
  revert M. induction fine as [|stock rest IH]; intros M; cbn [compute_MAD].
  - by intros [= <-].
  - destruct (d !! FineFundamental.Symbol stock) as [sd|]; [|done].
    intros HM HN. apply (IH _ HM). by apply dict_set_NoDup.
Qed.

Lemma compute_MAD_Ok d fine M :
  (∀ x, x ∈ fine → is_Some (d !! FineFundamental.Symbol x)) →
  ∃ M', compute_MAD d fine M = Ok M'.
Proof.
  revert M. induction fine as [|stock rest IH]; intros M Hk; cbn [compute_MAD].
  - by eexists.
  - destruct (Hk stock) as [sd ->]; [apply elem_of_cons; by left|].
    apply IH. intros x Hx. apply Hk. apply elem_of_cons; by right.
Qed.

Lemma FineSelection_MAD_Ok self fine :
  all_known self fine → ∃ MAD, FineSelection_MAD self fine = Ok MAD.
Proof.
  intros Hk. apply compute_MAD_Ok.
  intros x [Hl Hx]%list_elem_of_filter. apply Hk; [done|].
  by apply Is_true_true.
Qed.

Lemma FineSelection_MAD_NoDup self fine MAD :
  FineSelection_MAD self fine = Ok MAD → NoDup MAD.*1.
Proof. intros H. apply (compute_MAD_NoDup _ _ _ _ H). constructor. Qed.

(** A listed stock with a window gets that window's ratio. *)
Lemma FineSelection_MAD_lookup self fine MAD stock sd :
  FineSelection_MAD self fine = Ok MAD →
  stock ∈ fine → listed_exchange stock = true →
  data self !! FineFundamental.Symbol stock = Some sd →
  dict_get (FineFundamental.Symbol stock) MAD = Some (window_MAD sd).
Proof.
  intros HM Hin Hl Hsd. rewrite (compute_MAD_lookup _ _ _ _ HM).
  rewrite decide_True, Hsd; [done|].
  apply list_elem_of_fmap. exists stock. split; [done|].
  apply list_elem_of_filter. split; [by apply Is_true_true|done].
Qed.

Lemma FineSelectionFunction_unfold self fine MAD :
  FineSelection_MAD self fine = Ok MAD →
  FineSelectionFunction self fine
  = Ok (set_long_short self (select_long MAD) (select_short MAD),
        select_long MAD ++ select_short MAD).
Proof. intros H. unfold FineSelectionFunction. by rewrite H. Qed.

Lemma FineSelectionFunction_inv self fine self' ret :
  FineSelectionFunction self fine = Ok (self', ret) →
  ∃ MAD, FineSelection_MAD self fine = Ok MAD
         ∧ self' = set_long_short self (select_long MAD) (select_short MAD)
         ∧ ret = select_long MAD ++ select_short MAD.
Proof.
  unfold FineSelectionFunction.
  destruct (FineSelection_MAD self fine) as [MAD|e]; [|done].
  intros [= <- <-]. by exists MAD.
Qed.

Lemma elem_of_select_long MAD s :
  s ∈ select_long MAD ↔ ∃ v, (s, v) ∈ MAD ∧ float_ge v long_threshold = true.
Proof.
  unfold select_long. rewrite list_elem_of_fmap. split.
  - intros ([k v] & -> & [Hv Hin]%list_elem_of_filter).
    exists v. split; [done|]. by apply Is_true_true.
  - intros (v & Hin & Hv). exists (s, v). split; [done|].
    apply list_elem_of_filter. split; [by apply Is_true_true|done].
Qed.

Lemma elem_of_select_short MAD s :
  s ∈ select_short MAD ↔ ∃ v, (s, v) ∈ MAD ∧ float_le v short_threshold = true.
Proof.
  unfold select_short. rewrite list_elem_of_fmap. split.
  - intros ([k v] & -> & [Hv Hin]%list_elem_of_filter).
    exists v. split; [done|]. by apply Is_true_true.
  - intros (v & Hin & Hv). exists (s, v). split; [done|].
    apply list_elem_of_filter. split; [by apply Is_true_true|done].
Qed.

Lemma filter_keys_NoDup (P : Symbol * float64 → Prop)
    `{∀ x, Decision (P x)} (MAD : pydict) :
  NoDup MAD.*1 → NoDup (filter P MAD).*1.
Proof.
  induction MAD as [|[k v] MAD IH]; [done|].
  rewrite fmap_cons, NoDup_cons, filter_cons. intros [Hk HN].
  case_decide; [|by apply IH].
  rewrite fmap_cons. apply NoDup_cons. split; [|by apply IH].
  intros ([k' v'] & Hkk & [_ Hin]%list_elem_of_filter)%list_elem_of_fmap.
  apply Hk. apply list_elem_of_fmap. by exists (k', v').
Qed.

Lemma select_disjoint MAD :
  NoDup MAD.*1 → ∀ x, x ∈ select_long MAD → x ∉ select_short MAD.
Proof.
  intros HN x (v & Hv & Hge)%elem_of_select_long
              (w & Hw & Hle)%elem_of_select_short.
  apply (dict_get_elem _ _ _ HN) in Hv, Hw.
  assert (v = w) as -> by congruence.
  by eapply thresholds_exclusive.
Qed.

End fine_selection.

(** ** Coarse selection *)

Section coarse_selection.
Import MovingAveragesDistance.

Lemma fed_window_feed symbol xs :
  fed_window symbol (SymbolData.feed (SymbolData.init symbol 200) xs).
Proof. by exists xs. Qed.

Lemma fed_window_update symbol sd price :
  fed_window symbol sd → fed_window symbol (SymbolData.update sd price).
Proof.
  intros [hist ->]. exists (hist ++ [price]). by rewrite feed_app.
Qed.

Lemma update_known_fed d stock :
  map_Forall fed_window d → map_Forall fed_window (update_known d stock).
Proof.
  intros Hd. unfold update_known.
  destruct (d !! CoarseFundamental.Symbol stock) as [sd|] eqn:Hsd; [|done].
  apply map_Forall_insert_2; [|done].
  apply fed_window_update. by apply (Hd _ _ Hsd).
Qed.

Lemma warmup_fed History d symbol :
  map_Forall fed_window d → map_Forall fed_window (warmup History 200 d symbol).
Proof.
  intros Hd. unfold warmup. destruct (d !! symbol); [done|].
  destruct (History symbol 200) as [|c cs];
    (apply map_Forall_insert_2; [|done]).
  - apply (fed_window_feed symbol []).
  - apply fed_window_feed.
Qed.

Lemma fold_fed {A} (step : gmap Symbol SymbolData.t → A → gmap Symbol SymbolData.t)
    (l : list A) d :
  (∀ d a, map_Forall fed_window d → map_Forall fed_window (step d a)) →
  map_Forall fed_window d → map_Forall fed_window (fold_left step l d).
Proof.
  intros Hstep. revert d. induction l as [|a l IH]; intros d Hd; simpl; auto.
Qed.

Lemma warmup_known History n d symbol x :
  x = symbol ∨ is_Some (d !! x) → is_Some (warmup History n d symbol !! x).
Proof.
  unfold warmup. destruct (d !! symbol) as [sd|] eqn:Hsd.
  - intros [->|?]; [by rewrite Hsd|done].
  - intros Hx. destruct (History symbol n);
      apply lookup_insert_is_Some;
      (destruct (decide (symbol = x)) as [->|Hne]; [by left|right]);
      (split; [done|]); by destruct Hx as [->|Hx].
Qed.

Lemma fold_warmup_known History n l d x :
  x ∈ l ∨ is_Some (d !! x) →
  is_Some (fold_left (warmup History n) l d !! x).
Proof.
  revert d. induction l as [|symbol l IH]; intros d; simpl.
  - intros [H|H]; [inversion H|done].
  - intros [[->|Hin]%elem_of_cons|Hd].
    + apply IH. right. apply warmup_known. by left.
    + apply IH. by left.
    + apply IH. right. apply warmup_known. by right.
Qed.

Lemma ready_symbols_Ok d l :
  (∀ x, x ∈ l → is_Some (d !! x)) →
  ready_symbols d l = Ok (filter (λ x, ready_in d x) l).
Proof.
  induction l as [|x l IH]; intros Hk; cbn [ready_symbols]; [done|].
  destruct (Hk x) as [sd Hsd]; [apply elem_of_cons; by left|].
  assert (Hr : ready_in d x = SymbolData.is_ready sd)
    by (unfold ready_in; by rewrite Hsd).
  rewrite filter_cons, Hr, Hsd.
  rewrite IH by (intros y Hy; apply Hk, elem_of_cons; by right).
  by destruct (SymbolData.is_ready sd).
Qed.

(** On a rebalance day the coarse selection returns a list, whatever the
    host passes in. *)
Lemma CoarseSelectionFunction_selected History self coarse :
  selection_flag self = true →
  CoarseSelectionFunction History self coarse
  = Ok (set_data self (warmed_data History self coarse),
        Selected (take (coarse_count self)
                    (filter (λ x, ready_in (warmed_data History self coarse) x)
                            (selected_symbols coarse)))).
Proof.
  intros Hflag. unfold CoarseSelectionFunction. rewrite Hflag; simpl.
  fold (selected_symbols coarse). fold (warmed_data History self coarse).
  rewrite ready_symbols_Ok; [done|].
  intros x Hx. apply fold_warmup_known. by left.
Qed.

Lemma CoarseSelectionFunction_unchanged History self coarse :
  selection_flag self = false →
  CoarseSelectionFunction History self coarse
  = Ok (set_data self (fold_left update_known coarse (data self)), Unchanged).
Proof. intros Hflag. unfold CoarseSelectionFunction. by rewrite Hflag. Qed.

End coarse_selection.

(** ** Rebalancing *)

Section on_data.
Import MovingAveragesDistance.

Lemma allocate_Ok Securities side num count :
  count ≠ 0%Z ∨ side = [] →
  allocate Securities side num count
  = Ok (allocations Securities side (Finite (Qc_of_Z num / Qc_of_Z count)%Qc)).
Proof.
  unfold allocations.
  induction side as [|s side IH]; intros Hc; cbn [allocate]; [done|].
  destruct Hc as [Hc|?]; [|done].
  rewrite filter_cons, IH by (by left).
  destruct (can_trade (Securities s)); [|done]. cbn.
  unfold py_truediv. by rewrite decide_False.
Qed.

Lemma count_nonzero (side : list Symbol) :
  Z.of_nat (length side) ≠ 0%Z ∨ side = [].
Proof. destruct side; [by right|left; simpl; lia]. Qed.

(** A rebalance never fails: each division is reached only from inside
    the loop over its own side. *)
Lemma OnData_rebalance Securities self :
  selection_flag self = true →
  OnData Securities self
  = Ok (set_long_short (set_selection_flag self false) [] [],
        Liquidate
          :: allocations Securities (long self)
               (Finite (Qc_of_Z 1 / Qc_of_nat (length (long self)))%Qc)
          ++ allocations Securities (short self)
               (Finite (Qc_of_Z (-1) / Qc_of_nat (length (short self)))%Qc)).
Proof.
  intros Hflag. unfold OnData. rewrite Hflag; cbn [negb].
  by rewrite !allocate_Ok by apply count_nonzero.
Qed.

Lemma OnData_idle Securities self :
  selection_flag self = false → OnData Securities self = Ok (self, []).
Proof. intros Hflag. unfold OnData. by rewrite Hflag. Qed.

End on_data.

(** ** Reachable states *)

Section reachable_states.
Import MovingAveragesDistance.

Lemma Inv_Initialize : Inv Initialize.
Proof.
  split; cbn;
    [done|done|apply map_Forall_empty|constructor|constructor|].
  intros x H; inversion H.
Qed.

Lemma Inv_set_data self d :
  Inv self → map_Forall fed_window d → Inv (set_data self d).
Proof. intros [] Hd. by split. Qed.

Lemma Inv_step self self' : Inv self → step self self' → Inv self'.
Proof.
  intros HI Hstep. destruct Hstep as
    [History self coarse self' u Hc|self fine self' ret Hf
    |Securities self self' acts Ho|self].
  - assert (Hd1 : map_Forall fed_window
                    (fold_left update_known coarse (data self)))
      by (apply fold_fed; [apply update_known_fed|apply HI]).
    destruct (selection_flag self) eqn:Hflag.
    + rewrite CoarseSelectionFunction_selected in Hc by done.
      injection Hc as <- _. apply Inv_set_data; [done|].
      unfold warmed_data. rewrite (Inv_period _ HI).
      apply fold_fed; [apply warmup_fed|done].
    + rewrite CoarseSelectionFunction_unchanged in Hc by done.
      injection Hc as <- _. by apply Inv_set_data.
  - apply FineSelectionFunction_inv in Hf as (MAD & HM & -> & _).
    apply FineSelection_MAD_NoDup in HM. destruct HI.
    split; cbn; try done.
    + by apply filter_keys_NoDup.
    + by apply filter_keys_NoDup.
    + by apply select_disjoint.
  - destruct (selection_flag self) eqn:Hflag.
    + rewrite OnData_rebalance in Ho by done. injection Ho as <- _.
      destruct HI. split; cbn; try done; try constructor.
      intros x H; inversion H.
    + rewrite OnData_idle in Ho by done. by injection Ho as <- _.
  - destruct HI. by split.
Qed.

Lemma reachable_Inv self : reachable self → Inv self.
Proof.
  revert self. apply rtc_ind_r.
  - apply Inv_Initialize.
  - intros self self' _ Hstep IH. by eapply Inv_step.
Qed.

End reachable_states.

(** ** The fixtures are states of the algorithm *)

Section fixtures.
Import MovingAveragesDistance.

Lemma fixture_day_reachable : reachable fixture_day.
Proof. apply rtc_once, step_Selection. Qed.

Lemma fixture_warm_reachable : reachable fixture_warm.
Proof.
  eapply rtc_r; [apply fixture_day_reachable|].
  eapply (step_Coarse fixture_History fixture_day fixture_coarse).
  by apply CoarseSelectionFunction_selected.
Qed.

Lemma fixture_warm_all_known : all_known fixture_warm fixture_fine.
Proof.
  intros x Hx _. unfold fixture_fine in Hx.
  repeat (apply elem_of_cons in Hx as [->|Hx];
          [vm_compute; by eexists|]).
  inversion Hx.
Qed.

Lemma fixture_ranked_reachable : reachable fixture_ranked.
Proof.
  eapply rtc_r; [apply fixture_warm_reachable|].
  destruct (FineSelection_MAD_Ok _ _ fixture_warm_all_known) as [MAD HM].
  eapply (step_Fine fixture_warm fixture_fine).
  unfold fixture_ranked.
  by rewrite (FineSelectionFunction_unfold _ _ _ HM).
Qed.

End fixtures.

(** * The claims *)

Lemma fed_window_ready symbol sd :
  fed_window symbol sd → SymbolData.is_ready sd = true →
  ∃ hist, sd = SymbolData.feed (SymbolData.init symbol 200) hist
          ∧ 200 ≤ length hist
          ∧ SymbolData.return_prices sd = most_recent 200 hist
          ∧ length (SymbolData.return_prices sd) = 200.
Proof.
  intros [hist ->] Hready. apply feed_is_ready in Hready.
  exists hist. rewrite feed_return_prices. unfold most_recent.
  split_and!; [done..|].
  rewrite length_take, length_reverse. lia.
Qed.

Lemma window_MAD_spec symbol hist :
  window_MAD (SymbolData.feed (SymbolData.init symbol 200) hist) = spec_MAD hist.
Proof.
  unfold window_MAD, spec_MAD, most_recent, mean, np_average.
  rewrite feed_return_prices; cbn zeta. by rewrite take_take.
Qed.

(** C1.  In any state the algorithm can reach, a listed stock handed to
    the fine selection whose window is ready holds exactly 200 prices, and
    the ratio stored for it in [MAD] is the mean of the 21 most recent
    prices fed to its window divided by the mean of the 200 most recent
    ones, which are all the prices in the window. *)
Theorem FineSelection_MAD_is_ratio_of_means
    (self : MovingAveragesDistance.t) (fine : list FineFundamental.t)
    (stock : FineFundamental.t) (sd : SymbolData.t) :
  MovingAveragesDistance.reachable self →
  all_known self fine →
  stock ∈ fine →
  MovingAveragesDistance.listed_exchange stock = true →
  MovingAveragesDistance.data self !! FineFundamental.Symbol stock = Some sd →
  SymbolData.is_ready sd = true →
  ∃ hist MAD,
    sd = SymbolData.feed (SymbolData.init (FineFundamental.Symbol stock) 200) hist
    ∧ length (SymbolData.return_prices sd) = 200
    ∧ SymbolData.return_prices sd = most_recent 200 hist
    ∧ MovingAveragesDistance.FineSelection_MAD self fine = Ok MAD
    ∧ dict_get (FineFundamental.Symbol stock) MAD
      = Some (np_div (mean (most_recent 21 hist)) (mean (most_recent 200 hist))).
Proof.
  intros Hreach Hknown Hin Hlisted Hsd Hready.
  pose proof (Inv_data _ (reachable_Inv _ Hreach) _ _ Hsd) as Hfed.
  destruct (fed_window_ready _ _ Hfed Hready) as (hist & -> & Hlen & Hpr & H200).
  destruct (FineSelection_MAD_Ok _ _ Hknown) as [MAD HM].
  exists hist, MAD. split_and!; [done..|].
  rewrite (FineSelection_MAD_lookup _ _ _ _ _ HM Hin Hlisted Hsd).
  by rewrite window_MAD_spec.
Qed.

Lemma FineSelection_MAD_is_ratio_of_means_witness :
  ∃ hist MAD,
    SymbolData.feed (SymbolData.init "AAA" 200) (fixture 120)
    = SymbolData.feed (SymbolData.init "AAA" 200) hist
    ∧ length (SymbolData.return_prices
                (SymbolData.feed (SymbolData.init "AAA" 200) (fixture 120))) = 200
    ∧ SymbolData.return_prices
        (SymbolData.feed (SymbolData.init "AAA" 200) (fixture 120))
      = most_recent 200 hist
    ∧ MovingAveragesDistance.FineSelection_MAD fixture_warm fixture_fine = Ok MAD
    ∧ dict_get "AAA" MAD
      = Some (np_div (mean (most_recent 21 hist)) (mean (most_recent 200 hist))).
Proof.
  apply (FineSelection_MAD_is_ratio_of_means fixture_warm fixture_fine
           (fixture_listed "AAA")).
  - apply fixture_warm_reachable.
  - apply fixture_warm_all_known.
  - apply elem_of_cons. by left.
  - reflexivity.
  - vm_compute. reflexivity.
  - vm_compute. reflexivity.
Defined.

(** C2.  When the fine selection runs, every symbol with a value in [MAD]
    is in the long list exactly when its value is at least 1.2, in the
    short list exactly when its value is at most 0.8, and in neither list
    (nor in the returned universe) otherwise. *)
Theorem FineSelection_classifies_by_threshold
    (self : MovingAveragesDistance.t) (fine : list FineFundamental.t) :
  all_known self fine →
  ∃ MAD self' ret,
    MovingAveragesDistance.FineSelection_MAD self fine = Ok MAD
    ∧ MovingAveragesDistance.FineSelectionFunction self fine = Ok (self', ret)
    ∧ ret = MovingAveragesDistance.long self' ++ MovingAveragesDistance.short self'
    ∧ ∀ s v, dict_get s MAD = Some v →
        (s ∈ MovingAveragesDistance.long self'
           ↔ float_ge v (Finite (Q2Qc (12 # 10))) = true)
        ∧ (s ∈ MovingAveragesDistance.short self'
           ↔ float_le v (Finite (Q2Qc (8 # 10))) = true)
        ∧ (float_ge v (Finite (Q2Qc (12 # 10))) = false →
           float_le v (Finite (Q2Qc (8 # 10))) = false →
           (s ∉ MovingAveragesDistance.long self')
           ∧ (s ∉ MovingAveragesDistance.short self')
           ∧ (s ∉ ret)).
Proof.
  intros Hknown.
  destruct (FineSelection_MAD_Ok _ _ Hknown) as [MAD HM].
  pose proof (FineSelection_MAD_NoDup _ _ _ HM) as HN.
  eexists MAD, _, _. split; [done|].
  split; [by apply FineSelectionFunction_unfold|].
  split; [done|].
  cbn [MovingAveragesDistance.long MovingAveragesDistance.short
       MovingAveragesDistance.set_long_short]. intros s v Hv.
  assert (Hl : s ∈ MovingAveragesDistance.select_long MAD
               ↔ float_ge v MovingAveragesDistance.long_threshold = true).
  { rewrite elem_of_select_long. split.
    - intros (w & Hw & Hge). apply (dict_get_elem _ _ _ HN) in Hw.
      rewrite Hv in Hw. by injection Hw as ->.
    - intros Hge. exists v. split; [by apply dict_get_elem|done]. }
  assert (Hs : s ∈ MovingAveragesDistance.select_short MAD
               ↔ float_le v MovingAveragesDistance.short_threshold = true).
  { rewrite elem_of_select_short. split.
    - intros (w & Hw & Hle). apply (dict_get_elem _ _ _ HN) in Hw.
      rewrite Hv in Hw. by injection Hw as ->.
    - intros Hle. exists v. split; [by apply dict_get_elem|done]. }
  split; [done|]. split; [done|].
  intros Hnl Hns.
  assert (s ∉ MovingAveragesDistance.select_long MAD)
    by (rewrite Hl; unfold MovingAveragesDistance.long_threshold;
        rewrite Hnl; discriminate).
  assert (s ∉ MovingAveragesDistance.select_short MAD)
    by (rewrite Hs; unfold MovingAveragesDistance.short_threshold;
        rewrite Hns; discriminate).
  split_and!; [done..|]. intros [?|?]%elem_of_app; done.
Qed.

Lemma FineSelection_classifies_by_threshold_witness :
  ∃ MAD self' ret,
    MovingAveragesDistance.FineSelection_MAD fixture_warm fixture_fine = Ok MAD
    ∧ MovingAveragesDistance.FineSelectionFunction fixture_warm fixture_fine
      = Ok (self', ret)
    ∧ ret = MovingAveragesDistance.long self' ++ MovingAveragesDistance.short self'
    ∧ ∀ s v, dict_get s MAD = Some v →
        (s ∈ MovingAveragesDistance.long self'
           ↔ float_ge v (Finite (Q2Qc (12 # 10))) = true)
        ∧ (s ∈ MovingAveragesDistance.short self'
           ↔ float_le v (Finite (Q2Qc (8 # 10))) = true)
        ∧ (float_ge v (Finite (Q2Qc (12 # 10))) = false →
           float_le v (Finite (Q2Qc (8 # 10))) = false →
           (s ∉ MovingAveragesDistance.long self')
           ∧ (s ∉ MovingAveragesDistance.short self')
           ∧ (s ∉ ret)).
Proof.
  apply (FineSelection_classifies_by_threshold fixture_warm fixture_fine).
  intros x Hx _. unfold fixture_fine in Hx.
  repeat (apply elem_of_cons in Hx as [->|Hx]; [vm_compute; by eexists|]).
  inversion Hx.
Defined.

Lemma np_div_zero_not_finite (x : float64) :
  is_finite (np_div x (Finite 0%Qc)) = false.
Proof.
  destruct x as [a| | |]; try done. unfold np_div.
  replace (Qc_eqb 0%Qc 0%Qc) with true by done.
  by repeat case_match.
Qed.

(** C4.  The ratio of a ready window whose 200 prices have mean zero is
    computed all the same: the fine selection divides by that zero without
    any test, and the value it stores for the symbol is not a finite
    number. *)
Theorem FineSelection_MAD_divides_by_zero_mean
    (self : MovingAveragesDistance.t) (fine : list FineFundamental.t)
    (stock : FineFundamental.t) (sd : SymbolData.t) :
  all_known self fine →
  stock ∈ fine →
  MovingAveragesDistance.listed_exchange stock = true →
  MovingAveragesDistance.data self !! FineFundamental.Symbol stock = Some sd →
  SymbolData.is_ready sd = true →
  np_average (SymbolData.return_prices sd) = Finite 0%Qc →
  ∃ MAD v,
    MovingAveragesDistance.FineSelection_MAD self fine = Ok MAD
    ∧ dict_get (FineFundamental.Symbol stock) MAD = Some v
    ∧ v = np_div (np_average (take 21 (SymbolData.return_prices sd)))
                 (Finite 0%Qc)
    ∧ is_finite v = false.
Proof.
  intros Hknown Hin Hlisted Hsd _ Hzero.
  destruct (FineSelection_MAD_Ok _ _ Hknown) as [MAD HM].
  exists MAD, (window_MAD sd).
  split; [done|]. split; [by eapply FineSelection_MAD_lookup|].
  unfold window_MAD; cbn zeta. rewrite Hzero.
  split; [done|apply np_div_zero_not_finite].
Qed.

Lemma FineSelection_MAD_divides_by_zero_mean_witness :
  ∃ MAD v,
    MovingAveragesDistance.FineSelection_MAD fixture_warm fixture_fine = Ok MAD
    ∧ dict_get "ZZZ" MAD = Some v
    ∧ v = np_div
            (np_average
               (take 21 (SymbolData.return_prices
                           (SymbolData.feed (SymbolData.init "ZZZ" 200)
                              (replicate 200 (float_of_Z 0))))))
            (Finite 0%Qc)
    ∧ is_finite v = false.
Proof.
  apply (FineSelection_MAD_divides_by_zero_mean fixture_warm fixture_fine
           (fixture_listed "ZZZ")).
  - apply fixture_warm_all_known.
  - unfold fixture_fine. rewrite !fmap_cons, !elem_of_cons. tauto.
  - reflexivity.
  - vm_compute. reflexivity.
  - vm_compute. reflexivity.
  - vm_compute. f_equal. apply Qc_is_canon. reflexivity.
Defined.

(** C5.  The fine selection returns whenever every listed stock it is
    handed has a window, and whenever it returns, no symbol is in both the
    long list and the short list it leaves behind. *)
Theorem FineSelection_long_short_disjoint
    (self : MovingAveragesDistance.t) (fine : list FineFundamental.t) :
  (all_known self fine →
   ∃ self' ret,
     MovingAveragesDistance.FineSelectionFunction self fine = Ok (self', ret))
  ∧ ∀ self' ret,
      MovingAveragesDistance.FineSelectionFunction self fine = Ok (self', ret) →
      ∀ x, x ∈ MovingAveragesDistance.long self' →
           x ∉ MovingAveragesDistance.short self'.
Proof.
  split.
  - intros [MAD HM]%FineSelection_MAD_Ok.
    eexists _, _. by apply FineSelectionFunction_unfold.
  - intros self' ret (MAD & HM & -> & _)%FineSelectionFunction_inv.
    apply select_disjoint. by eapply FineSelection_MAD_NoDup.
Qed.

Lemma FineSelection_long_short_disjoint_witness :
  MovingAveragesDistance.long fixture_ranked = ["BBB"; "DDD"]
  ∧ MovingAveragesDistance.short fixture_ranked = ["CCC"]
  ∧ (∃ self' ret,
       MovingAveragesDistance.FineSelectionFunction fixture_warm fixture_fine
       = Ok (self', ret))
  ∧ "BBB" ∉ MovingAveragesDistance.short fixture_ranked.
Proof.
  split; [by vm_compute|]. split; [by vm_compute|].
  destruct (FineSelection_long_short_disjoint fixture_warm fixture_fine)
    as [Hreturns Hdisjoint].
  split; [apply Hreturns, fixture_warm_all_known|].
  apply (Hdisjoint fixture_ranked
           (MovingAveragesDistance.long fixture_ranked
              ++ MovingAveragesDistance.short fixture_ranked)).
  - vm_compute. reflexivity.
  - replace (MovingAveragesDistance.long fixture_ranked) with ["BBB"; "DDD"]
      by (by vm_compute).
    apply elem_of_cons. by left.
Defined.

Lemma fed_window_ready_Count symbol sd :
  fed_window symbol sd →
  SymbolData.is_ready sd = true →
  RollingWindow.Count (SymbolData.Prices sd) = 200.
Proof.
  intros [hist ->] Hready. apply feed_is_ready in Hready.
  rewrite feed_Count. lia.
Qed.

(** C6.  In any reachable state the coarse selection returns without
    raising; on a rebalance day it returns a list of symbols, and a symbol
    whose window holds fewer than 200 prices is not in that list: every
    listed symbol has a window holding exactly 200 prices. *)
Theorem CoarseSelection_excludes_short_history
    (History : Symbol → nat → list float64)
    (self : MovingAveragesDistance.t) (coarse : list CoarseFundamental.t) :
  MovingAveragesDistance.reachable self →
  ∃ self' u,
    MovingAveragesDistance.CoarseSelectionFunction History self coarse
    = Ok (self', u)
    ∧ (MovingAveragesDistance.selection_flag self = true →
       ∃ ranked, u = Selected ranked)
    ∧ ∀ ranked, u = Selected ranked →
        (∀ x, x ∈ ranked →
           ∃ sd, MovingAveragesDistance.data self' !! x = Some sd
                 ∧ SymbolData.is_ready sd = true
                 ∧ RollingWindow.Count (SymbolData.Prices sd) = 200)
        ∧ (∀ x sd, MovingAveragesDistance.data self' !! x = Some sd →
             RollingWindow.Count (SymbolData.Prices sd) < 200 →
             x ∉ ranked).
Proof.
  intros Hreach.
  destruct (MovingAveragesDistance.selection_flag self) eqn:Hflag.
  - pose proof (MovingAveragesDistance.step_Coarse History self coarse _ _
                  (CoarseSelectionFunction_selected History self coarse Hflag))
      as Hstep.
    pose proof (Inv_step _ _ (reachable_Inv _ Hreach) Hstep) as HI.
    eexists _, _. split; [by apply CoarseSelectionFunction_selected|].
    split; [by eexists|].
    intros ranked [= <-].
    assert (Hranked : ∀ x,
      x ∈ take (MovingAveragesDistance.coarse_count self)
            (filter (λ x, ready_in (warmed_data History self coarse) x)
                    (selected_symbols coarse)) →
      ∃ sd, warmed_data History self coarse !! x = Some sd
            ∧ SymbolData.is_ready sd = true
            ∧ RollingWindow.Count (SymbolData.Prices sd) = 200).
    { intros x Hx. apply subseteq_take in Hx.
      apply list_elem_of_filter in Hx as [Hr _]. apply Is_true_true in Hr.
      unfold ready_in in Hr.
      destruct (warmed_data History self coarse !! x) as [sd|] eqn:Hsd; [|done].
      exists sd. split_and!; [done..|].
      eapply fed_window_ready_Count; [|done].
      by apply (Inv_data _ HI _ _ Hsd). }
    split; [exact Hranked|].
    cbn [MovingAveragesDistance.data MovingAveragesDistance.set_data].
    intros x sd Hsd Hlt Hx.
    destruct (Hranked x Hx) as (sd' & Hsd' & _ & H200).
    rewrite Hsd in Hsd'. injection Hsd' as <-. lia.
  - eexists _, _. split; [by apply CoarseSelectionFunction_unchanged|].
    split; [done|]. intros ranked [=].
Qed.

Lemma CoarseSelection_excludes_short_history_witness :
  ∃ self' u,
    MovingAveragesDistance.CoarseSelectionFunction fixture_History
      fixture_day fixture_coarse = Ok (self', u)
    ∧ (MovingAveragesDistance.selection_flag fixture_day = true →
       ∃ ranked, u = Selected ranked)
    ∧ ∀ ranked, u = Selected ranked →
        (∀ x, x ∈ ranked →
           ∃ sd, MovingAveragesDistance.data self' !! x = Some sd
                 ∧ SymbolData.is_ready sd = true
                 ∧ RollingWindow.Count (SymbolData.Prices sd) = 200)
        ∧ (∀ x sd, MovingAveragesDistance.data self' !! x = Some sd →
             RollingWindow.Count (SymbolData.Prices sd) < 200 →
             x ∉ ranked).
Proof.
  apply (CoarseSelection_excludes_short_history fixture_History
           fixture_day fixture_coarse).
  apply rtc_once. apply MovingAveragesDistance.step_Selection.
Defined.

(** C10.  On a rebalance day the coarse selection returns the first 500
    entries of the ready symbols in dollar-volume order, so at most 500
    symbols. *)
Theorem CoarseSelection_at_most_500
    (History : Symbol → nat → list float64)
    (self : MovingAveragesDistance.t) (coarse : list CoarseFundamental.t) :
  MovingAveragesDistance.reachable self →
  MovingAveragesDistance.selection_flag self = true →
  ∃ self' ranked,
    MovingAveragesDistance.CoarseSelectionFunction History self coarse
    = Ok (self', Selected ranked)
    ∧ ranked
      = take 500 (filter (λ x, ready_in (MovingAveragesDistance.data self') x)
                         (selected_symbols coarse))
    ∧ length ranked ≤ 500.
Proof.
  intros Hreach Hflag.
  eexists _, _. split; [by apply CoarseSelectionFunction_selected|].
  rewrite (Inv_coarse_count _ (reachable_Inv _ Hreach)).
  split; [done|]. rewrite length_take. lia.
Qed.

Lemma CoarseSelection_at_most_500_witness :
  ∃ self' ranked,
    MovingAveragesDistance.CoarseSelectionFunction fixture_History
      fixture_day fixture_coarse = Ok (self', Selected ranked)
    ∧ ranked
      = take 500 (filter (λ x, ready_in (MovingAveragesDistance.data self') x)
                         (selected_symbols fixture_coarse))
    ∧ length ranked ≤ 500.
Proof.
  apply (CoarseSelection_at_most_500 fixture_History fixture_day fixture_coarse).
  - apply rtc_once. apply MovingAveragesDistance.step_Selection.
  - reflexivity.
Defined.

(** ** Weights *)

Section weights.
Local Open Scope Qc_scope.

Lemma Qc_of_nat_pos n : n ≠ 0%nat → 0 < Qc_of_nat n.
Proof.
  intros Hn. unfold Qc_of_nat. rewrite <- Z2Qc_inj_0.
  apply (proj1 (Z2Qc_inj_lt 0 (Z.of_nat n))). lia.
Qed.

Lemma Qc_of_nat_S n : Qc_of_nat (S n) = Qc_of_nat n + 1.
Proof.
  unfold Qc_of_nat. by rewrite Nat2Z.inj_succ, <- Z.add_1_r, Z2Qc_inj_add.
Qed.

Lemma Qc_opp_neg a : 0 < a → - a < 0.
Proof.
  intros Ha. apply (Qcplus_lt_mono_l _ _ a).
  by rewrite Qcplus_opp_r, Qcplus_0_r.
Qed.

Lemma float_abs_pos a : 0 < a → float_abs (Finite a) = Finite a.
Proof.
  intros Ha. unfold float_abs.
  destruct (Qc_ltb a 0) eqn:Hlt; [|done].
  apply Qc_ltb_lt in Hlt. destruct (Qclt_not_le _ _ Hlt).
  by apply Qclt_le_weak.
Qed.

Lemma float_abs_neg a : 0 < a → float_abs (Finite (- a)) = Finite a.
Proof.
  intros Ha. unfold float_abs.
  destruct (Qc_ltb (- a) 0) eqn:Hlt; [by rewrite Qcopp_involutive|].
  apply Qc_opp_neg, Qc_ltb_lt in Ha. congruence.
Qed.

Lemma long_weight_abs n :
  n ≠ 0%nat →
  float_abs (Finite (Qc_of_Z 1 / Qc_of_nat n)) = Finite (/ Qc_of_nat n).
Proof.
  intros Hn. rewrite Z2Qc_inj_1. unfold Qcdiv. rewrite Qcmult_1_l.
  by apply float_abs_pos, Qcinv_pos, Qc_of_nat_pos.
Qed.

Lemma short_weight_abs n :
  n ≠ 0%nat →
  float_abs (Finite (Qc_of_Z (-1) / Qc_of_nat n)) = Finite (/ Qc_of_nat n).
Proof.
  intros Hn.
  replace (Qc_of_Z (-1) / Qc_of_nat n) with (Qcopp (/ Qc_of_nat n)).
  2:{ replace (Qc_of_Z (-1)) with (Qcopp 1) by (by apply Qc_is_canon).
      unfold Qcdiv. ring. }
  by apply float_abs_neg, Qcinv_pos, Qc_of_nat_pos.
Qed.

Lemma fold_float_add_replicate k a b :
  fold_left float_add (replicate k (Finite a)) (Finite b)
  = Finite (b + Qc_of_nat k * a).
Proof.
  revert b. induction k as [|k IH]; intros b; simpl.
  - f_equal. replace (Qc_of_nat 0) with 0 by (by apply Qc_is_canon). ring.
  - rewrite IH, Qc_of_nat_S. f_equal. ring.
Qed.

Lemma np_sum_replicate k a :
  np_sum (replicate k (Finite a)) = Finite (Qc_of_nat k * a).
Proof.
  unfold np_sum. rewrite fold_float_add_replicate. f_equal. ring.
Qed.

Lemma Qc_of_nat_div_diag n : n ≠ 0%nat → Qc_of_nat n / Qc_of_nat n = 1.
Proof.
  intros Hn. apply Qcmult_inv_r. intros H0.
  pose proof (Qc_of_nat_pos n Hn) as Hpos. rewrite H0 in Hpos.
  by apply (Qclt_not_eq _ _ Hpos).
Qed.

End weights.

Section side_weights.
Import MovingAveragesDistance.

Lemma side_weights_app side a b :
  side_weights side (a ++ b) = side_weights side a ++ side_weights side b.
Proof. apply bind_app. Qed.

Lemma side_weights_own side (l : list Symbol) w :
  (∀ s, s ∈ l → s ∈ side) →
  side_weights side ((λ s, SetHoldings s w) <$> l) = replicate (length l) w.
Proof.
  unfold side_weights. induction l as [|s l IH]; intros Hl; [done|].
  rewrite fmap_cons, bind_cons, IH
    by (intros x Hx; apply Hl, elem_of_cons; by right).
  rewrite decide_True by (apply Hl, elem_of_cons; by left). done.
Qed.

Lemma side_weights_other side (l : list Symbol) w :
  (∀ s, s ∈ l → s ∉ side) →
  side_weights side ((λ s, SetHoldings s w) <$> l) = [].
Proof.
  unfold side_weights. induction l as [|s l IH]; intros Hl; [done|].
  rewrite fmap_cons, bind_cons, IH
    by (intros x Hx; apply Hl, elem_of_cons; by right).
  rewrite decide_False by (apply Hl, elem_of_cons; by left). done.
Qed.

(** The orders of a rebalance, read side by side: a side's weights are
    one copy of its weight per tradable symbol of that side. *)
Lemma side_weights_rebalance Securities (mine other : list Symbol) wl ws :
  (∀ x, x ∈ other → x ∉ mine) →
  side_weights mine
    (Liquidate :: allocations Securities mine wl
               ++ allocations Securities other ws)
  = replicate (length (filter (λ s, can_trade (Securities s)) mine)) wl
  ∧ side_weights mine
      (Liquidate :: allocations Securities other ws
                 ++ allocations Securities mine wl)
    = replicate (length (filter (λ s, can_trade (Securities s)) mine)) wl.
Proof.
  intros Hdisj.
  assert (Hown : side_weights mine (allocations Securities mine wl)
                 = replicate
                     (length (filter (λ s, can_trade (Securities s)) mine)) wl).
  { apply side_weights_own. by intros s [_ ?]%list_elem_of_filter. }
  assert (Hoth : side_weights mine (allocations Securities other ws) = []).
  { apply side_weights_other. intros s [_ ?]%list_elem_of_filter. auto. }
  split.
  - change (Liquidate :: ?l) with ([Liquidate] ++ l).
    rewrite !side_weights_app, Hown, Hoth. cbn. by rewrite app_nil_r.
  - change (Liquidate :: ?l) with ([Liquidate] ++ l).
    by rewrite !side_weights_app, Hown, Hoth.
Qed.

End side_weights.

Section rebalance.
Import MovingAveragesDistance.
Local Open Scope Qc_scope.

Lemma filter_all_length {A} (P : A → Prop) `{∀ x, Decision (P x)} (l : list A) :
  (∀ x, x ∈ l → P x) → length (filter P l) = length l.
Proof.
  induction l as [|x l IH]; intros Hl; [done|].
  rewrite filter_cons, decide_True by (apply Hl, elem_of_cons; by left).
  cbn. f_equal. apply IH. intros y Hy. apply Hl, elem_of_cons. by right.
Qed.

(** The gross weight of a side whose orders all carry a weight of
    absolute value [1 / n]. *)
Lemma gross_weight_replicate k n w :
  float_abs w = Finite (/ Qc_of_nat n) →
  np_sum (float_abs <$> replicate k w) = Finite (Qc_of_nat k / Qc_of_nat n).
Proof. intros Hw. by rewrite fmap_replicate, Hw, np_sum_replicate. Qed.

End rebalance.

(** C3, as the code has it.  On a rebalance every symbol of a side that
    has a non-zero price and is tradable is given the weight [1 / count]
    (long) or [-1 / count] (short), where [count] is the length of the whole
    side; the other symbols of the side are given nothing.  So the absolute
    weights of a non-empty side sum to the number of its symbols that can
    be traded divided by [count], which is 1 when all of them can. *)
Theorem rebalance_gross_weight_per_side
    (Securities : Symbol → Security.t) (self : MovingAveragesDistance.t) :
  MovingAveragesDistance.reachable self →
  MovingAveragesDistance.selection_flag self = true →
  let long := MovingAveragesDistance.long self in
  let short := MovingAveragesDistance.short self in
  let tradable side :=
    filter (λ s, MovingAveragesDistance.can_trade (Securities s)) side in
  ∃ self' acts,
    MovingAveragesDistance.OnData Securities self = Ok (self', acts)
    ∧ acts = Liquidate
               :: allocations Securities long
                    (Finite (Qc_of_Z 1 / Qc_of_nat (length long))%Qc)
               ++ allocations Securities short
                    (Finite (Qc_of_Z (-1) / Qc_of_nat (length short))%Qc)
    ∧ (long ≠ [] →
       gross_weight long acts
       = Finite (Qc_of_nat (length (tradable long)) / Qc_of_nat (length long))%Qc
       ∧ ((∀ s, s ∈ long →
                MovingAveragesDistance.can_trade (Securities s) = true) →
          gross_weight long acts = Finite 1%Qc))
    ∧ (short ≠ [] →
       gross_weight short acts
       = Finite (Qc_of_nat (length (tradable short)) / Qc_of_nat (length short))%Qc
       ∧ ((∀ s, s ∈ short →
                MovingAveragesDistance.can_trade (Securities s) = true) →
          gross_weight short acts = Finite 1%Qc)).
Proof.
  intros Hreach Hflag long short tradable.
  pose proof (Inv_disjoint _ (reachable_Inv _ Hreach)) as Hdisj.
  fold long short in Hdisj.
  eexists _, _. split; [by apply OnData_rebalance|]. fold long short.
  split; [done|]. split.
  - intros Hne.
    assert (Hn : length long ≠ 0) by (by destruct long).
    assert (Hg : gross_weight long
                   (Liquidate
                      :: allocations Securities long
                           (Finite (Qc_of_Z 1 / Qc_of_nat (length long))%Qc)
                      ++ allocations Securities short
                           (Finite (Qc_of_Z (-1) / Qc_of_nat (length short))%Qc))
                 = Finite (Qc_of_nat (length (tradable long))
                           / Qc_of_nat (length long))%Qc).
    { unfold gross_weight.
      rewrite (proj1 (side_weights_rebalance Securities long short _ _
                        (λ x Hs Hl, Hdisj x Hl Hs))).
      apply gross_weight_replicate. by apply long_weight_abs. }
    split; [done|]. intros Hall. rewrite Hg. f_equal.
    unfold tradable. rewrite filter_all_length.
    + by apply Qc_of_nat_div_diag.
    + intros s Hs. apply Is_true_true. by apply Hall.
  - intros Hne.
    assert (Hn : length short ≠ 0) by (by destruct short).
    assert (Hg : gross_weight short
                   (Liquidate
                      :: allocations Securities long
                           (Finite (Qc_of_Z 1 / Qc_of_nat (length long))%Qc)
                      ++ allocations Securities short
                           (Finite (Qc_of_Z (-1) / Qc_of_nat (length short))%Qc))
                 = Finite (Qc_of_nat (length (tradable short))
                           / Qc_of_nat (length short))%Qc).
    { unfold gross_weight.
      rewrite (proj2 (side_weights_rebalance Securities short long _ _ Hdisj)).
      apply gross_weight_replicate. by apply short_weight_abs. }
    split; [done|]. intros Hall. rewrite Hg. f_equal.
    unfold tradable. rewrite filter_all_length.
    + by apply Qc_of_nat_div_diag.
    + intros s Hs. apply Is_true_true. by apply Hall.
Qed.

(** Equalities between computed rationals. *)
Ltac float_compute :=
  vm_compute;
  repeat match goal with
         | |- Some _ = Some _ => f_equal
         | |- Finite _ = Finite _ => f_equal
         | |- SetHoldings _ _ = SetHoldings _ _ => f_equal
         | |- _ :: _ = _ :: _ => f_equal
         end;
  try (apply Qc_is_canon); reflexivity.

Lemma fixture_ranked_lists :
  MovingAveragesDistance.long fixture_ranked = ["BBB"; "DDD"]
  ∧ MovingAveragesDistance.short fixture_ranked = ["CCC"]
  ∧ MovingAveragesDistance.selection_flag fixture_ranked = true.
Proof. by vm_compute. Qed.

Lemma rebalance_gross_weight_per_side_witness :
  ∃ self' acts,
    MovingAveragesDistance.OnData fixture_Securities fixture_ranked
    = Ok (self', acts)
    ∧ gross_weight (MovingAveragesDistance.long fixture_ranked) acts
      = Finite (Qc_of_nat 1 / Qc_of_nat 2)%Qc
    ∧ gross_weight (MovingAveragesDistance.short fixture_ranked) acts
      = Finite 1%Qc.
Proof.
  destruct (rebalance_gross_weight_per_side fixture_Securities fixture_ranked)
    as (self' & acts & HO & _ & HL & HS).
  - apply fixture_ranked_reachable.
  - vm_compute. reflexivity.
  - exists self', acts. split; [exact HO|]. split.
    + destruct HL as [HL _]; [by vm_compute|]. rewrite HL. float_compute.
    + destruct HS as [_ HS]; [by vm_compute|]. apply HS.
      intros s Hs.
      replace (MovingAveragesDistance.short fixture_ranked) with ["CCC"] in Hs
        by (by vm_compute).
      apply elem_of_cons in Hs as [->|Hs]; [by vm_compute|inversion Hs].
Defined.

(** C3, as stated, fails: on the fixture day "BBB" and "DDD" are on the
    long side but "DDD" cannot be traded, so only "BBB" is given a weight,
    [1 / 2], and the long side's absolute weights sum to one half. *)
Lemma rebalance_untradable_counterexample :
  MovingAveragesDistance.reachable fixture_ranked
  ∧ MovingAveragesDistance.selection_flag fixture_ranked = true
  ∧ MovingAveragesDistance.long fixture_ranked = ["BBB"; "DDD"]
  ∧ MovingAveragesDistance.can_trade (fixture_Securities "DDD") = false
  ∧ ¬ sides_sum_to_one fixture_Securities fixture_ranked.
Proof.
  split; [apply fixture_ranked_reachable|].
  split; [by vm_compute|]. split; [by vm_compute|]. split; [by vm_compute|].
  intros Hclaim.
  destruct (Hclaim _ _ (OnData_rebalance fixture_Securities fixture_ranked
                          (proj2 (proj2 fixture_ranked_lists))))
    as [Hlong _].
  specialize (Hlong ltac:(by vm_compute)).
  assert (Hhalf : gross_weight (MovingAveragesDistance.long fixture_ranked)
            (Liquidate
               :: allocations fixture_Securities
                    (MovingAveragesDistance.long fixture_ranked)
                    (Finite (Qc_of_Z 1
                             / Qc_of_nat (length (MovingAveragesDistance.long
                                                    fixture_ranked)))%Qc)
               ++ allocations fixture_Securities
                    (MovingAveragesDistance.short fixture_ranked)
                    (Finite (Qc_of_Z (-1)
                             / Qc_of_nat (length (MovingAveragesDistance.short
                                                    fixture_ranked)))%Qc))
            = Finite (Q2Qc (1 # 2))) by float_compute.
  rewrite Hhalf in Hlong. injection Hlong as Hq. discriminate Hq.
Qed.

Lemma side_weights_nil acts : side_weights [] acts = [].
Proof.
  unfold side_weights. induction acts as [|[|s w] acts IH]; [done|done|].
  rewrite bind_cons, IH. rewrite decide_False by (intros H; inversion H).
  done.
Qed.

(** C8.  [OnData] never raises.  On a rebalance with an empty long side
    the orders are the liquidation and the short side's allocations only,
    and likewise with an empty short side; the weight of a side is divided
    out only inside the loop over that side, so never by a zero count. *)
Theorem rebalance_empty_side_no_division
    (Securities : Symbol → Security.t) (self : MovingAveragesDistance.t) :
  ∃ self' acts,
    MovingAveragesDistance.OnData Securities self = Ok (self', acts)
    ∧ (MovingAveragesDistance.selection_flag self = true →
       (MovingAveragesDistance.long self = [] →
        acts = Liquidate
                 :: allocations Securities (MovingAveragesDistance.short self)
                      (Finite (Qc_of_Z (-1)
                               / Qc_of_nat (length (MovingAveragesDistance.short
                                                      self)))%Qc)
        ∧ side_weights (MovingAveragesDistance.long self) acts = [])
       ∧ (MovingAveragesDistance.short self = [] →
          acts = Liquidate
                   :: allocations Securities (MovingAveragesDistance.long self)
                        (Finite (Qc_of_Z 1
                                 / Qc_of_nat (length (MovingAveragesDistance.long
                                                        self)))%Qc)
          ∧ side_weights (MovingAveragesDistance.short self) acts = [])).
Proof.
  destruct (MovingAveragesDistance.selection_flag self) eqn:Hflag.
  - eexists _, _. split; [by apply OnData_rebalance|]. intros _. split.
    + intros ->. cbn [allocations filter list_filter fmap list_fmap app].
      split; [done|]. apply side_weights_nil.
    + intros ->. cbn [allocations filter list_filter fmap list_fmap].
      rewrite app_nil_r.
      split; [done|]. apply side_weights_nil.
  - eexists _, _. split; [by apply OnData_idle|]. done.
Qed.

Lemma rebalance_empty_side_no_division_witness :
  MovingAveragesDistance.long fixture_short_only = []
  ∧ MovingAveragesDistance.short fixture_short_only = ["CCC"]
  ∧ ∃ self',
      MovingAveragesDistance.OnData fixture_Securities fixture_short_only
      = Ok (self',
            [Liquidate;
             SetHoldings "CCC" (Finite (Qc_of_Z (-1) / Qc_of_nat 1)%Qc)]).
Proof.
  split; [by vm_compute|]. split; [by vm_compute|].
  destruct (rebalance_empty_side_no_division fixture_Securities
              fixture_short_only) as (self' & acts & HO & Hside).
  destruct Hside as [Hlong _]; [by vm_compute|].
  destruct Hlong as [Hacts _]; [by vm_compute|].
  exists self'. rewrite HO, Hacts. vm_compute. reflexivity.
Defined.

(** ** The hand-computed fixtures *)

Lemma fixture_MAD_values :
  fixture_MAD "AAA" = Finite (Q2Qc (1200 # 1021))
  ∧ fixture_MAD "BBB" = Finite (Q2Qc (2600 # 2063))
  ∧ fixture_MAD "CCC" = Finite (Q2Qc (300 # 479)).
Proof. split_and!; float_compute. Qed.

Lemma fixture_ranked_members :
  ("AAA" ∉ MovingAveragesDistance.long fixture_ranked)
  ∧ ("AAA" ∉ MovingAveragesDistance.short fixture_ranked)
  ∧ "BBB" ∈ MovingAveragesDistance.long fixture_ranked
  ∧ "CCC" ∈ MovingAveragesDistance.short fixture_ranked.
Proof.
  destruct fixture_ranked_lists as (-> & -> & _).
  split_and!.
  - intros H. repeat (apply elem_of_cons in H as [H|H]; [discriminate|]).
    inversion H.
  - intros H. repeat (apply elem_of_cons in H as [H|H]; [discriminate|]).
    inversion H.
  - apply elem_of_cons. by left.
  - apply elem_of_cons. by left.
Qed.

(** C9, as stated, fails: for [[100]*179 + [60]*21] the ratio is 300/479,
    about 0.626, which is not 0.79 to any reading of "≈"; for
    [[100]*179 + [120]*21] it is 1200/1021, about 1.1753, not 1.174. *)
Lemma fixtures_as_stated_counterexample :
  fixture_MAD "CCC" = Finite (Q2Qc (300 # 479))
  ∧ approx (fixture_MAD "CCC") (79 # 100) (1 # 10) = false
  ∧ approx (fixture_MAD "AAA") (1174 # 1000) (1 # 1000) = false
  ∧ ¬ fixtures_as_stated.
Proof.
  split; [apply fixture_MAD_values|].
  split; [by vm_compute|]. split; [by vm_compute|].
  intros (_ & _ & Hmad & _).
  revert Hmad. by vm_compute.
Qed.

(** C9, as the code has it.  For [[100]*179 + [120]*21] the short mean is
    120, the long mean is 102.1 and the ratio is 1200/1021, about 1.175,
    and the symbol is in neither list; for [[100]*179 + [130]*21] the ratio
    is 2600/2063, about 1.260, and the symbol is long; for
    [[100]*179 + [60]*21] the ratio is 300/479, about 0.626, and the
    symbol is short. *)
Theorem fixture_values_and_classes :
  fixture_ma_short "AAA" = Finite (Qc_of_Z 120)
  ∧ fixture_ma_long "AAA" = Finite (Q2Qc (1021 # 10))
  ∧ fixture_MAD "AAA" = Finite (Q2Qc (1200 # 1021))
  ∧ approx (fixture_MAD "AAA") (1175 # 1000) (1 # 1000) = true
  ∧ ("AAA" ∉ MovingAveragesDistance.long fixture_ranked)
  ∧ ("AAA" ∉ MovingAveragesDistance.short fixture_ranked)
  ∧ fixture_MAD "BBB" = Finite (Q2Qc (2600 # 2063))
  ∧ approx (fixture_MAD "BBB") (1260 # 1000) (1 # 1000) = true
  ∧ "BBB" ∈ MovingAveragesDistance.long fixture_ranked
  ∧ fixture_MAD "CCC" = Finite (Q2Qc (300 # 479))
  ∧ approx (fixture_MAD "CCC") (626 # 1000) (1 # 1000) = true
  ∧ "CCC" ∈ MovingAveragesDistance.short fixture_ranked.
Proof.
  destruct fixture_MAD_values as (HA & HB & HC).
  destruct fixture_ranked_members as (HAl & HAs & HBl & HCs).
  split_and!;
    [float_compute|float_compute
    |exact HA|by vm_compute|exact HAl|exact HAs
    |exact HB|by vm_compute|exact HBl
    |exact HC|by vm_compute|exact HCs].
Qed.

(** ** The fixture days, step by step *)

Example fixture_coarse_selected :
  MovingAveragesDistance.CoarseSelectionFunction fixture_History fixture_day
    fixture_coarse
  = Ok (fixture_warm, Selected ["BBB"; "ZZZ"; "AAA"; "DDD"; "CCC"]).
Proof. rewrite CoarseSelectionFunction_selected by done. by vm_compute. Qed.

Example fixture_unknown_symbol :
  MovingAveragesDistance.FineSelection_MAD fixture_warm [fixture_listed "QQQ"]
  = Raise (KeyError "QQQ").
Proof. by vm_compute. Qed.

Example fixture_zero_window :
  fixture_MAD "ZZZ" = NaN
  ∧ ("ZZZ" ∉ MovingAveragesDistance.long fixture_ranked)
  ∧ ("ZZZ" ∉ MovingAveragesDistance.short fixture_ranked).
Proof.
  split; [by vm_compute|].
  destruct fixture_ranked_lists as (-> & -> & _).
  split; intros H;
    repeat (apply elem_of_cons in H as [H|H]; [discriminate|]); inversion H.
Qed.

(** * Further properties of the code *)

(** ** The coarse selection's two loops *)

Section coarse_loops.
Import MovingAveragesDistance.

Lemma prices_for_cons s stock coarse :
  prices_for s (stock :: coarse)
  = if decide (CoarseFundamental.Symbol stock = s)
    then CoarseFundamental.AdjustedPrice stock :: prices_for s coarse
    else prices_for s coarse.
Proof. unfold prices_for. rewrite filter_cons. by case_decide. Qed.

(** The daily loop feeds each known window the prices listed for it. *)
Lemma fold_update_known_lookup coarse (d : gmap Symbol SymbolData.t) s :
  fold_left update_known coarse d !! s
  = (λ sd, SymbolData.feed sd (prices_for s coarse)) <$> d !! s.
Proof.
  revert d. induction coarse as [|stock coarse IH]; intros d; cbn [fold_left].
  - by destruct (d !! s).
  - rewrite IH, prices_for_cons. unfold update_known.
    destruct (decide (CoarseFundamental.Symbol stock = s)) as [<-|Hne].
    + destruct (d !! CoarseFundamental.Symbol stock) as [sd|] eqn:Hsd.
      * by rewrite lookup_insert_eq.
      * by rewrite Hsd.
    + destruct (d !! CoarseFundamental.Symbol stock) as [sd|]; [|done].
      by rewrite lookup_insert_ne.
Qed.

(** One round of the warm-up never touches a window that exists. *)
Lemma warmup_lookup History n (d : gmap Symbol SymbolData.t) s x :
  warmup History n d s !! x
  = match d !! x with
    | Some sd => Some sd
    | None =>
        if decide (s = x)
        then Some (SymbolData.feed (SymbolData.init x n) (History x n))
        else None
    end.
Proof.
  unfold warmup. destruct (d !! s) as [sd|] eqn:Hs.
  - destruct (d !! x) eqn:Hx; [done|]. case_decide; [congruence|done].
  - assert (Hins : ∀ w, <[s:=w]> d !! x
                        = match d !! x with
                          | Some sd => Some sd
                          | None => if decide (s = x) then Some w else None
                          end).
    { intros w. destruct (decide (s = x)) as [->|Hne].
      - by rewrite lookup_insert_eq, Hs.
      - rewrite lookup_insert_ne by done. by destruct (d !! x). }
    destruct (History s n) as [|c cs] eqn:HH; rewrite Hins;
      destruct (d !! x); try done; case_decide as Hsx; try done;
      subst x; by rewrite HH.
Qed.

Lemma fold_warmup_lookup History n l (d : gmap Symbol SymbolData.t) x :
  fold_left (warmup History n) l d !! x
  = match d !! x with
    | Some sd => Some sd
    | None =>
        if decide (x ∈ l)
        then Some (SymbolData.feed (SymbolData.init x n) (History x n))
        else None
    end.
Proof.
  revert d. induction l as [|s l IH]; intros d; cbn [fold_left].
  - destruct (d !! x); [done|]. case_decide as H; [inversion H|done].
  - rewrite IH, warmup_lookup. destruct (d !! x) as [sd|]; [done|].
    destruct (decide (s = x)) as [->|Hne].
    + rewrite decide_True; [done|]. apply elem_of_cons. by left.
    + destruct (decide (x ∈ l)) as [Hin|Hnin].
      * rewrite decide_True; [done|]. apply elem_of_cons. by right.
      * rewrite decide_False; [done|].
        intros [?|?]%elem_of_cons; congruence.
Qed.

Lemma elem_of_insert_by_dollar_volume x a l :
  x ∈ insert_by_dollar_volume a l ↔ x = a ∨ x ∈ l.
Proof.
  induction l as [|y l IH]; cbn [insert_by_dollar_volume].
  - by rewrite elem_of_cons.
  - case_match.
    + rewrite !elem_of_cons, IH. tauto.
    + by rewrite !elem_of_cons.
Qed.

Lemma elem_of_sorted_by_dollar_volume x coarse :
  x ∈ sorted_by_dollar_volume coarse ↔ x ∈ coarse ∧ tradable_stock x = true.
Proof.
  unfold sorted_by_dollar_volume.
  trans (x ∈ filter (λ x, tradable_stock x) coarse).
  - induction (filter (λ x, tradable_stock x) coarse) as [|a l IH]; cbn [foldr].
    + done.
    + rewrite elem_of_insert_by_dollar_volume, IH, elem_of_cons. tauto.
  - rewrite list_elem_of_filter, Is_true_true. tauto.
Qed.

End coarse_loops.

(** Membership in a list that computes to a literal. *)
Ltac elem_of_literal :=
  vm_compute; repeat first [apply list_elem_of_here | apply list_elem_of_further].

Lemma fixture_done_reachable : MovingAveragesDistance.reachable fixture_done.
Proof.
  eapply rtc_r; [apply fixture_ranked_reachable|].
  eapply (MovingAveragesDistance.step_OnData fixture_Securities fixture_ranked).
  unfold fixture_done.
  by rewrite OnData_rebalance by apply fixture_ranked_lists.
Qed.

(** X1.  Off a rebalance day the coarse selection returns
    [Universe.Unchanged] without raising; it creates no window and leaves
    the two lists and the flag alone. *)
Theorem CoarseSelection_off_day
    (History : Symbol → nat → list float64)
    (self : MovingAveragesDistance.t) (coarse : list CoarseFundamental.t) :
  MovingAveragesDistance.selection_flag self = false →
  ∃ self',
    MovingAveragesDistance.CoarseSelectionFunction History self coarse
    = Ok (self', Unchanged)
    ∧ dom (MovingAveragesDistance.data self')
      = dom (MovingAveragesDistance.data self)
    ∧ MovingAveragesDistance.long self' = MovingAveragesDistance.long self
    ∧ MovingAveragesDistance.short self' = MovingAveragesDistance.short self
    ∧ MovingAveragesDistance.selection_flag self' = false.
Proof.
  intros Hflag. eexists. split; [by apply CoarseSelectionFunction_unchanged|].
  split; [|done]. apply set_eq. intros s.
  cbn [MovingAveragesDistance.data MovingAveragesDistance.set_data].
  by rewrite !elem_of_dom, fold_update_known_lookup, fmap_is_Some.
Qed.

Lemma CoarseSelection_off_day_witness :
  ∃ self',
    MovingAveragesDistance.CoarseSelectionFunction fixture_History
      fixture_done fixture_coarse = Ok (self', Unchanged)
    ∧ dom (MovingAveragesDistance.data self')
      = dom (MovingAveragesDistance.data fixture_done)
    ∧ MovingAveragesDistance.long self' = MovingAveragesDistance.long fixture_done
    ∧ MovingAveragesDistance.short self'
      = MovingAveragesDistance.short fixture_done
    ∧ MovingAveragesDistance.selection_flag self' = false.
Proof.
  apply (CoarseSelection_off_day fixture_History fixture_done fixture_coarse).
  vm_compute. reflexivity.
Defined.

(** What the coarse selection does to a window that exists. *)
Lemma CoarseSelection_feeds_known_windows_aux
    (History : Symbol → nat → list float64)
    (self self' : MovingAveragesDistance.t)
    (coarse : list CoarseFundamental.t) (u : universe)
    (s : Symbol) (sd : SymbolData.t) :
  MovingAveragesDistance.CoarseSelectionFunction History self coarse
  = Ok (self', u) →
  MovingAveragesDistance.data self !! s = Some sd →
  MovingAveragesDistance.data self' !! s
  = Some (SymbolData.feed sd (prices_for s coarse)).
Proof.
  intros Hc Hsd.
  destruct (MovingAveragesDistance.selection_flag self) eqn:Hflag.
  - rewrite CoarseSelectionFunction_selected in Hc by done.
    injection Hc as <- _.
    cbn [MovingAveragesDistance.data MovingAveragesDistance.set_data].
    unfold warmed_data.
    by rewrite fold_warmup_lookup, fold_update_known_lookup, Hsd.
  - rewrite CoarseSelectionFunction_unchanged in Hc by done.
    injection Hc as <- _.
    cbn [MovingAveragesDistance.data MovingAveragesDistance.set_data].
    by rewrite fold_update_known_lookup, Hsd.
Qed.

(** X2.  Whenever the coarse selection returns, a window that existed
    before the call has been fed the adjusted price of every stock of the
    list that carries its symbol, in list order, and nothing else: the
    warm-up does not touch it. *)
Theorem CoarseSelection_feeds_known_windows
    (History : Symbol → nat → list float64)
    (self self' : MovingAveragesDistance.t)
    (coarse : list CoarseFundamental.t) (u : universe)
    (s : Symbol) (sd : SymbolData.t) :
  MovingAveragesDistance.CoarseSelectionFunction History self coarse
  = Ok (self', u) →
  MovingAveragesDistance.data self !! s = Some sd →
  MovingAveragesDistance.data self' !! s
  = Some (SymbolData.feed sd (prices_for s coarse)).
Proof.
  intros Hc Hsd.
  destruct (MovingAveragesDistance.selection_flag self) eqn:Hflag.
  - rewrite CoarseSelectionFunction_selected in Hc by done.
    injection Hc as <- _.
    cbn [MovingAveragesDistance.data MovingAveragesDistance.set_data].
    unfold warmed_data.
    by rewrite fold_warmup_lookup, fold_update_known_lookup, Hsd.
  - rewrite CoarseSelectionFunction_unchanged in Hc by done.
    injection Hc as <- _.
    cbn [MovingAveragesDistance.data MovingAveragesDistance.set_data].
    by rewrite fold_update_known_lookup, Hsd.
Qed.

Lemma CoarseSelection_feeds_known_windows_witness :
  MovingAveragesDistance.data
    (MovingAveragesDistance.set_data fixture_done
       (fold_left MovingAveragesDistance.update_known fixture_coarse
          (MovingAveragesDistance.data fixture_done))) !! "AAA"
  = Some (SymbolData.feed
            (SymbolData.feed (SymbolData.init "AAA" 200) (fixture 120))
            (prices_for "AAA" fixture_coarse)).
Proof.
  apply (CoarseSelection_feeds_known_windows fixture_History fixture_done _
           fixture_coarse Unchanged).
  - apply CoarseSelectionFunction_unchanged. vm_compute. reflexivity.
  - vm_compute. reflexivity.
Defined.

(** X3.  On a rebalance day a ranked symbol that had no window gets one of
    the algorithm's period, fed with the history the host returns for it
    (none, if that history is empty); it is returned only if the host
    supplied at least a full period of closes. *)
Theorem CoarseSelection_warms_new_symbol
    (History : Symbol → nat → list float64)
    (self : MovingAveragesDistance.t) (coarse : list CoarseFundamental.t)
    (s : Symbol) :
  MovingAveragesDistance.selection_flag self = true →
  s ∈ selected_symbols coarse →
  MovingAveragesDistance.data self !! s = None →
  let period := MovingAveragesDistance.period self in
  ∃ self' ranked,
    MovingAveragesDistance.CoarseSelectionFunction History self coarse
    = Ok (self', Selected ranked)
    ∧ MovingAveragesDistance.data self' !! s
      = Some (SymbolData.feed (SymbolData.init s period) (History s period))
    ∧ (s ∈ ranked → period ≤ length (History s period)).
Proof.
  intros Hflag Hs Hnone period.
  assert (Hnew : warmed_data History self coarse !! s
                 = Some (SymbolData.feed (SymbolData.init s period)
                           (History s period))).
  { unfold warmed_data.
    rewrite fold_warmup_lookup, fold_update_known_lookup, Hnone; cbn.
    by rewrite decide_True. }
  eexists _, _. split; [by apply CoarseSelectionFunction_selected|].
  split; [exact Hnew|].
  intros [Hr _]%subseteq_take%list_elem_of_filter.
  apply Is_true_true in Hr. unfold ready_in in Hr. rewrite Hnew in Hr.
  by apply feed_is_ready in Hr.
Qed.

Lemma CoarseSelection_warms_new_symbol_witness :
  ∃ self' ranked,
    MovingAveragesDistance.CoarseSelectionFunction fixture_History
      fixture_day fixture_coarse = Ok (self', Selected ranked)
    ∧ MovingAveragesDistance.data self' !! "NEW"
      = Some (SymbolData.feed (SymbolData.init "NEW" 200)
                (fixture_History "NEW" 200))
    ∧ ("NEW" ∈ ranked → 200 ≤ length (fixture_History "NEW" 200)).
Proof.
  apply (CoarseSelection_warms_new_symbol fixture_History fixture_day
           fixture_coarse "NEW").
  - reflexivity.
  - elem_of_literal.
  - reflexivity.
Defined.

(** X4.  Every symbol the coarse selection returns is the symbol of a
    stock of the list that has fundamental data, trades on the market
    "usa" and has a price above 5. *)
Theorem CoarseSelection_returns_screened
    (History : Symbol → nat → list float64)
    (self self' : MovingAveragesDistance.t)
    (coarse : list CoarseFundamental.t) (ranked : list Symbol) :
  MovingAveragesDistance.CoarseSelectionFunction History self coarse
  = Ok (self', Selected ranked) →
  ∀ x, x ∈ ranked →
    ∃ stock, stock ∈ coarse
             ∧ CoarseFundamental.Symbol stock = x
             ∧ CoarseFundamental.HasFundamentalData stock = true
             ∧ CoarseFundamental.Market stock = "usa"
             ∧ float_gt (CoarseFundamental.Price stock) (float_of_Z 5) = true.
Proof.
  intros Hc x Hx.
  destruct (MovingAveragesDistance.selection_flag self) eqn:Hflag.
  - rewrite CoarseSelectionFunction_selected in Hc by done.
    injection Hc as _ <-.
    apply subseteq_take, list_elem_of_filter in Hx as [_ Hx].
    apply list_elem_of_fmap in Hx as (stock & -> & Hstock).
    apply elem_of_sorted_by_dollar_volume in Hstock as [Hin Ht].
    exists stock. unfold MovingAveragesDistance.tradable_stock in Ht.
    apply andb_true_iff in Ht as [Ht Hprice].
    apply andb_true_iff in Ht as [Hfund Hmarket].
    apply bool_decide_eq_true in Hmarket. done.
  - rewrite CoarseSelectionFunction_unchanged in Hc by done. done.
Qed.

Lemma CoarseSelection_returns_screened_witness :
  ∃ stock, stock ∈ fixture_coarse
           ∧ CoarseFundamental.Symbol stock = "BBB"
           ∧ CoarseFundamental.HasFundamentalData stock = true
           ∧ CoarseFundamental.Market stock = "usa"
           ∧ float_gt (CoarseFundamental.Price stock) (float_of_Z 5) = true.
Proof.
  apply (CoarseSelection_returns_screened fixture_History fixture_day
           fixture_warm fixture_coarse ["BBB"; "ZZZ"; "AAA"; "DDD"; "CCC"]).
  - apply fixture_coarse_selected.
  - elem_of_literal.
Defined.

(** ** The order of the ranking *)

Section ranking_order.
Import MovingAveragesDistance.








End ranking_order.



(** ** Windows over the life of the algorithm *)

Lemma feed_Symbol sd xs :
  SymbolData.Symbol (SymbolData.feed sd xs) = SymbolData.Symbol sd.
Proof.
  unfold SymbolData.feed. revert sd.
  induction xs as [|x xs IH]; intros sd; cbn [fold_left]; [done|].
  by rewrite IH.
Qed.

(** X6.  No callback ever drops a window: a symbol that has a window
    before a step of the algorithm has one after it. *)
Theorem step_keeps_windows (self self' : MovingAveragesDistance.t) :
  MovingAveragesDistance.step self self' →
  dom (MovingAveragesDistance.data self)
  ⊆ dom (MovingAveragesDistance.data self').
Proof.
  intros [History st coarse st' u Hc|st fine st' ret Hf
         |Securities st st' acts Ho|st].
  - intros s [sd Hsd]%elem_of_dom. apply elem_of_dom.
    by rewrite (CoarseSelection_feeds_known_windows_aux History st st' coarse u
                  s sd Hc Hsd).
  - by apply FineSelectionFunction_inv in Hf as (MAD & _ & -> & _).
  - destruct (MovingAveragesDistance.selection_flag st) eqn:Hflag.
    + rewrite OnData_rebalance in Ho by done. by injection Ho as <- _.
    + rewrite OnData_idle in Ho by done. by injection Ho as <- _.
  - done.
Qed.

Lemma step_keeps_windows_witness :
  dom (MovingAveragesDistance.data fixture_done)
  ⊆ dom (MovingAveragesDistance.data
           (MovingAveragesDistance.set_data fixture_done
              (fold_left MovingAveragesDistance.update_known fixture_coarse
                 (MovingAveragesDistance.data fixture_done)))).
Proof.
  apply step_keeps_windows.
  apply (MovingAveragesDistance.step_Coarse fixture_History fixture_done
           fixture_coarse _ Unchanged).
  apply CoarseSelectionFunction_unchanged. vm_compute. reflexivity.
Defined.

(** X7.  In every state the algorithm can reach, the window stored under
    a symbol carries that symbol, has capacity 200, holds at most 200
    prices, and is ready exactly when it holds 200. *)
Theorem reachable_windows_well_formed
    (self : MovingAveragesDistance.t) (s : Symbol) (sd : SymbolData.t) :
  MovingAveragesDistance.reachable self →
  MovingAveragesDistance.data self !! s = Some sd →
  SymbolData.Symbol sd = s
  ∧ RollingWindow.Size (SymbolData.Prices sd) = 200
  ∧ length (SymbolData.return_prices sd) ≤ 200
  ∧ (SymbolData.is_ready sd = true
     ↔ length (SymbolData.return_prices sd) = 200).
Proof.
  intros Hreach Hsd.
  destruct (Inv_data _ (reachable_Inv _ Hreach) _ _ Hsd) as [hist ->].
  rewrite feed_Symbol, feed_Size, feed_is_ready, feed_return_prices.
  rewrite length_take, length_reverse. split_and!; [done|done|lia|lia].
Qed.

Lemma reachable_windows_well_formed_witness :
  SymbolData.Symbol (SymbolData.feed (SymbolData.init "NEW" 200)
                       (fixture_History "NEW" 200)) = "NEW"
  ∧ RollingWindow.Size
      (SymbolData.Prices (SymbolData.feed (SymbolData.init "NEW" 200)
                            (fixture_History "NEW" 200))) = 200
  ∧ length (SymbolData.return_prices
              (SymbolData.feed (SymbolData.init "NEW" 200)
                 (fixture_History "NEW" 200))) ≤ 200
  ∧ (SymbolData.is_ready (SymbolData.feed (SymbolData.init "NEW" 200)
                            (fixture_History "NEW" 200)) = true
     ↔ length (SymbolData.return_prices
                 (SymbolData.feed (SymbolData.init "NEW" 200)
                    (fixture_History "NEW" 200))) = 200).
Proof.
  apply (reachable_windows_well_formed fixture_warm "NEW").
  - apply fixture_warm_reachable.
  - vm_compute. reflexivity.
Defined.

(** ** More on the fine selection *)

Section fine_selection_more.
Import MovingAveragesDistance.

Lemma compute_MAD_Raise d fine M :
  (∃ x, x ∈ fine ∧ d !! FineFundamental.Symbol x = None) →
  ∃ s, compute_MAD d fine M = Raise (KeyError s)
       ∧ d !! s = None
       ∧ s ∈ FineFundamental.Symbol <$> fine.
Proof.
  revert M. induction fine as [|stock rest IH]; intros M (x & Hx & Hnone).
  - inversion Hx.
  - cbn [compute_MAD]. rewrite fmap_cons.
    destruct (d !! FineFundamental.Symbol stock) as [sd|] eqn:Hsd.
    + apply elem_of_cons in Hx as [->|Hx]; [congruence|].
      destruct (IH (dict_set (FineFundamental.Symbol stock)
                      (np_div (np_average (take 21 (SymbolData.return_prices sd)))
                              (np_average (SymbolData.return_prices sd))) M))
        as (s & HR & Hs & Hin); [by exists x|].
      exists s. split_and!; [done|done|]. apply elem_of_cons. by right.
    + exists (FineFundamental.Symbol stock).
      split_and!; [done|done|]. apply elem_of_cons. by left.
Qed.

Lemma select_from_MAD MAD x :
  x ∈ select_long MAD ++ select_short MAD → ∃ v, (x, v) ∈ MAD.
Proof.
  intros [(v & Hv & _)%elem_of_select_long
         |(v & Hv & _)%elem_of_select_short]%elem_of_app; by exists v.
Qed.



End fine_selection_more.

(** X8.  If a listed stock handed to the fine selection has no window, the
    fine selection raises [KeyError] for the symbol of a listed stock that
    has none; it returns nothing. *)
Theorem FineSelection_missing_window
    (self : MovingAveragesDistance.t) (fine : list FineFundamental.t)
    (stock : FineFundamental.t) :
  stock ∈ fine →
  MovingAveragesDistance.listed_exchange stock = true →
  MovingAveragesDistance.data self !! FineFundamental.Symbol stock = None →
  ∃ s,
    MovingAveragesDistance.FineSelectionFunction self fine = Raise (KeyError s)
    ∧ MovingAveragesDistance.data self !! s = None
    ∧ ∃ x, x ∈ fine
           ∧ MovingAveragesDistance.listed_exchange x = true
           ∧ FineFundamental.Symbol x = s.
Proof.
  intros Hin Hlisted Hnone.
  destruct (compute_MAD_Raise (MovingAveragesDistance.data self)
              (filter (λ x, MovingAveragesDistance.listed_exchange x) fine) [])
    as (s & HR & Hs & Hsym).
  { exists stock. split; [|done]. apply list_elem_of_filter.
    split; [by apply Is_true_true|done]. }
  exists s. split_and!; [|done|].
  - unfold MovingAveragesDistance.FineSelectionFunction,
      MovingAveragesDistance.FineSelection_MAD. by rewrite HR.
  - apply list_elem_of_fmap in Hsym as (x & -> & [Hl Hx]%list_elem_of_filter).
    exists x. split_and!; [done| |done]. by apply Is_true_true.
Qed.

Lemma FineSelection_missing_window_witness :
  ∃ s,
    MovingAveragesDistance.FineSelectionFunction fixture_warm
      [fixture_listed "AAA"; fixture_listed "QQQ"] = Raise (KeyError s)
    ∧ MovingAveragesDistance.data fixture_warm !! s = None
    ∧ ∃ x, x ∈ [fixture_listed "AAA"; fixture_listed "QQQ"]
           ∧ MovingAveragesDistance.listed_exchange x = true
           ∧ FineFundamental.Symbol x = s.
Proof.
  apply (FineSelection_missing_window fixture_warm _ (fixture_listed "QQQ")).
  - elem_of_literal.
  - reflexivity.
  - vm_compute. reflexivity.
Defined.

(** X9.  Whenever the fine selection returns, the universe it returns
    lists no symbol twice, and each symbol in it belongs to a stock of the
    input that is listed on NYS, NAS or ASE and has a window; the windows
    and the rebalance flag are left as they were. *)
Theorem FineSelection_returns_listed_once
    (self self' : MovingAveragesDistance.t) (fine : list FineFundamental.t)
    (ret : list Symbol) :
  MovingAveragesDistance.FineSelectionFunction self fine = Ok (self', ret) →
  NoDup ret
  ∧ MovingAveragesDistance.data self' = MovingAveragesDistance.data self
  ∧ MovingAveragesDistance.selection_flag self'
    = MovingAveragesDistance.selection_flag self
  ∧ ∀ x, x ∈ ret →
      is_Some (MovingAveragesDistance.data self !! x)
      ∧ ∃ stock, stock ∈ fine
                 ∧ FineFundamental.Symbol stock = x
                 ∧ (FineFundamental.ExchangeId stock = "NYS"
                    ∨ FineFundamental.ExchangeId stock = "NAS"
                    ∨ FineFundamental.ExchangeId stock = "ASE").
Proof.
  intros (MAD & HM & -> & ->)%FineSelectionFunction_inv.
  pose proof (FineSelection_MAD_NoDup _ _ _ HM) as HN.
  split_and!; [|done|done|].
  - apply NoDup_app. split_and!.
    + by apply filter_keys_NoDup.
    + by apply select_disjoint.
    + by apply filter_keys_NoDup.
  - intros x [v Hv]%select_from_MAD.
    apply (dict_get_elem _ _ _ HN) in Hv.
    rewrite (compute_MAD_lookup _ _ _ _ HM) in Hv.
    case_decide as Hx; [|done]. split.
    + by destruct (MovingAveragesDistance.data self !! x).
    + apply list_elem_of_fmap in Hx as (stock & -> & [Hl Hin]%list_elem_of_filter).
      exists stock. split_and!; [done..|].
      apply Is_true_true in Hl.
      unfold MovingAveragesDistance.listed_exchange in Hl.
      apply orb_true_iff in Hl as [Hl|Hl];
        [apply orb_true_iff in Hl as [Hl|Hl]|];
        apply bool_decide_eq_true in Hl; tauto.
Qed.

Lemma FineSelection_returns_listed_once_witness :
  NoDup ["BBB"]
  ∧ MovingAveragesDistance.data
      (MovingAveragesDistance.set_long_short fixture_warm ["BBB"] [])
    = MovingAveragesDistance.data fixture_warm
  ∧ MovingAveragesDistance.selection_flag
      (MovingAveragesDistance.set_long_short fixture_warm ["BBB"] [])
    = MovingAveragesDistance.selection_flag fixture_warm
  ∧ ∀ x, x ∈ ["BBB"] →
      is_Some (MovingAveragesDistance.data fixture_warm !! x)
      ∧ ∃ stock,
          stock ∈ [fixture_listed "BBB"; fixture_listed "BBB";
                   {| FineFundamental.Symbol := "QQQ";
                      FineFundamental.ExchangeId := "LSE" |}]
          ∧ FineFundamental.Symbol stock = x
          ∧ (FineFundamental.ExchangeId stock = "NYS"
             ∨ FineFundamental.ExchangeId stock = "NAS"
             ∨ FineFundamental.ExchangeId stock = "ASE").
Proof.
  apply (FineSelection_returns_listed_once fixture_warm).
  vm_compute. reflexivity.
Defined.



(** ** The ratio does not depend on the unit of the prices *)

Section scaling.
Local Open Scope Qc_scope.









End scaling.



(** ** More on rebalancing *)

Section on_data_more.
Import MovingAveragesDistance.

Lemma elem_of_allocations Securities side weight s w :
  SetHoldings s w ∈ allocations Securities side weight
  ↔ s ∈ side ∧ can_trade (Securities s) = true ∧ w = weight.
Proof.
  unfold allocations. rewrite list_elem_of_fmap. split.
  - intros (x & [= -> ->] & [Hx Hin]%list_elem_of_filter).
    split_and!; [done| |done]. by apply Is_true_true.
  - intros (Hin & Hx & ->). exists s. split; [done|].
    apply list_elem_of_filter. split; [by apply Is_true_true|done].
Qed.

Lemma Liquidate_not_allocated Securities side weight :
  Liquidate ∉ allocations Securities side weight.
Proof.
  unfold allocations. by intros (x & [=] & _)%list_elem_of_fmap.
Qed.

Lemma order_symbols_allocations Securities side weight :
  order_symbols (allocations Securities side weight)
  = filter (λ s, can_trade (Securities s)) side.
Proof.
  unfold order_symbols, allocations.
  induction (filter _ side) as [|s l IH]; [done|].
  rewrite fmap_cons. cbn [omap list_omap]. f_equal. apply IH.
Qed.

Lemma order_symbols_app a b :
  order_symbols (a ++ b) = order_symbols a ++ order_symbols b.
Proof. apply omap_app. Qed.

Local Open Scope Qc_scope.

Lemma Qcinv_of_nat_range n : n ≠ 0%nat → 0 < / Qc_of_nat n ∧ / Qc_of_nat n ≤ 1.
Proof.
  intros Hn. pose proof (Qc_of_nat_pos n Hn) as Hpos.
  pose proof (Qcinv_pos _ Hpos) as Hinv. split; [done|].
  assert (H1 : 1 ≤ Qc_of_nat n).
  { unfold Qc_of_nat. rewrite <- Z2Qc_inj_1.
    apply (proj1 (Z2Qc_inj_le 1 (Z.of_nat n))). lia. }
  apply (Qcmult_le_mono_pos_l _ _ (/ Qc_of_nat n) Hinv) in H1.
  rewrite Qcmult_1_r, Qcmult_inv_l in H1; [done|].
  intros H0. rewrite H0 in Hpos. by apply Qclt_not_eq in Hpos.
Qed.

Lemma long_weight_value n : Qc_of_Z 1 / Qc_of_nat n = / Qc_of_nat n.
Proof. rewrite Z2Qc_inj_1. unfold Qcdiv. ring. Qed.

Lemma short_weight_value n : Qc_of_Z (-1) / Qc_of_nat n = - / Qc_of_nat n.
Proof.
  replace (Qc_of_Z (-1)) with (Qcopp 1) by (by apply Qc_is_canon).
  unfold Qcdiv. ring.
Qed.

End on_data_more.

(** X12.  A rebalance uses the two lists once: it clears them and the
    flag and keeps the windows, so a further [OnData] places no order, and
    a rebalance that follows without a new fine selection only
    liquidates. *)
Theorem OnData_rebalances_once
    (Securities Securities' : Symbol → Security.t)
    (self self' : MovingAveragesDistance.t) (acts : list action) :
  MovingAveragesDistance.selection_flag self = true →
  MovingAveragesDistance.OnData Securities self = Ok (self', acts) →
  MovingAveragesDistance.selection_flag self' = false
  ∧ MovingAveragesDistance.long self' = []
  ∧ MovingAveragesDistance.short self' = []
  ∧ MovingAveragesDistance.data self' = MovingAveragesDistance.data self
  ∧ MovingAveragesDistance.OnData Securities' self' = Ok (self', [])
  ∧ MovingAveragesDistance.OnData Securities'
      (MovingAveragesDistance.Selection self') = Ok (self', [Liquidate]).
Proof.
  intros Hflag Ho. rewrite OnData_rebalance in Ho by done.
  injection Ho as <- _. by split_and!.
Qed.

Lemma OnData_rebalances_once_witness :
  MovingAveragesDistance.selection_flag fixture_done = false
  ∧ MovingAveragesDistance.long fixture_done = []
  ∧ MovingAveragesDistance.short fixture_done = []
  ∧ MovingAveragesDistance.data fixture_done
    = MovingAveragesDistance.data fixture_ranked
  ∧ MovingAveragesDistance.OnData fixture_Securities fixture_done
    = Ok (fixture_done, [])
  ∧ MovingAveragesDistance.OnData fixture_Securities
      (MovingAveragesDistance.Selection fixture_done)
    = Ok (fixture_done, [Liquidate]).
Proof.
  apply (OnData_rebalances_once fixture_Securities fixture_Securities
           fixture_ranked fixture_done
           (Liquidate
              :: allocations fixture_Securities
                   (MovingAveragesDistance.long fixture_ranked)
                   (Finite (Qc_of_Z 1
                            / Qc_of_nat (length (MovingAveragesDistance.long
                                                   fixture_ranked)))%Qc)
              ++ allocations fixture_Securities
                   (MovingAveragesDistance.short fixture_ranked)
                   (Finite (Qc_of_Z (-1)
                            / Qc_of_nat (length (MovingAveragesDistance.short
                                                   fixture_ranked)))%Qc))).
  - vm_compute. reflexivity.
  - vm_compute. reflexivity.
Defined.

(** X13.  On a rebalance the first order is the liquidation and there is
    no other; a symbol is given a holding exactly when it is on a side,
    has a non-zero price and is tradable, with the weight [1 / count] of
    the long side or [-1 / count] of the short side. *)
Theorem OnData_orders
    (Securities : Symbol → Security.t) (self : MovingAveragesDistance.t) :
  MovingAveragesDistance.selection_flag self = true →
  let long := MovingAveragesDistance.long self in
  let short := MovingAveragesDistance.short self in
  ∃ self' rest,
    MovingAveragesDistance.OnData Securities self = Ok (self', Liquidate :: rest)
    ∧ (Liquidate ∉ rest)
    ∧ ∀ s w, SetHoldings s w ∈ rest ↔
        (s ∈ long
         ∧ MovingAveragesDistance.can_trade (Securities s) = true
         ∧ w = Finite (Qc_of_Z 1 / Qc_of_nat (length long))%Qc)
        ∨ (s ∈ short
           ∧ MovingAveragesDistance.can_trade (Securities s) = true
           ∧ w = Finite (Qc_of_Z (-1) / Qc_of_nat (length short))%Qc).
Proof.
  intros Hflag long short.
  eexists _, _. split; [by apply OnData_rebalance|]. split.
  - intros [H|H]%elem_of_app; by apply Liquidate_not_allocated in H.
  - intros s w. by rewrite elem_of_app, !elem_of_allocations.
Qed.

Lemma OnData_orders_witness :
  ∃ self' rest,
    MovingAveragesDistance.OnData fixture_Securities fixture_ranked
    = Ok (self', Liquidate :: rest)
    ∧ (Liquidate ∉ rest)
    ∧ ∀ s w, SetHoldings s w ∈ rest ↔
        (s ∈ MovingAveragesDistance.long fixture_ranked
         ∧ MovingAveragesDistance.can_trade (fixture_Securities s) = true
         ∧ w = Finite (Qc_of_Z 1
                       / Qc_of_nat (length (MovingAveragesDistance.long
                                              fixture_ranked)))%Qc)
        ∨ (s ∈ MovingAveragesDistance.short fixture_ranked
           ∧ MovingAveragesDistance.can_trade (fixture_Securities s) = true
           ∧ w = Finite (Qc_of_Z (-1)
                         / Qc_of_nat (length (MovingAveragesDistance.short
                                                fixture_ranked)))%Qc).
Proof.
  apply (OnData_orders fixture_Securities fixture_ranked).
  vm_compute. reflexivity.
Defined.

(** X14.  In any state the algorithm can reach, [OnData] sets the holdings
    of no symbol twice. *)
Theorem OnData_orders_each_symbol_once
    (Securities : Symbol → Security.t)
    (self self' : MovingAveragesDistance.t) (acts : list action) :
  MovingAveragesDistance.reachable self →
  MovingAveragesDistance.OnData Securities self = Ok (self', acts) →
  NoDup (order_symbols acts).
Proof.
  intros Hreach Ho. destruct (reachable_Inv _ Hreach).
  destruct (MovingAveragesDistance.selection_flag self) eqn:Hflag.
  - rewrite OnData_rebalance in Ho by done. injection Ho as _ <-.
    change (Liquidate :: ?l) with ([Liquidate] ++ l).
    rewrite !order_symbols_app, !order_symbols_allocations. cbn [app].
    change (order_symbols [Liquidate]) with (@nil Symbol). cbn [app].
    apply NoDup_app. split_and!.
    + by apply NoDup_filter.
    + intros x [_ Hl]%list_elem_of_filter [_ Hs]%list_elem_of_filter.
      by apply (Inv_disjoint0 x).
    + by apply NoDup_filter.
  - rewrite OnData_idle in Ho by done. injection Ho as _ <-. constructor.
Qed.

Lemma OnData_orders_each_symbol_once_witness :
  NoDup
    (order_symbols
       (Liquidate
          :: allocations fixture_Securities
               (MovingAveragesDistance.long fixture_ranked)
               (Finite (Qc_of_Z 1
                        / Qc_of_nat (length (MovingAveragesDistance.long
                                               fixture_ranked)))%Qc)
          ++ allocations fixture_Securities
               (MovingAveragesDistance.short fixture_ranked)
               (Finite (Qc_of_Z (-1)
                        / Qc_of_nat (length (MovingAveragesDistance.short
                                               fixture_ranked)))%Qc))).
Proof.
  apply (OnData_orders_each_symbol_once fixture_Securities fixture_ranked
           fixture_done).
  - apply fixture_ranked_reachable.
  - vm_compute. reflexivity.
Defined.

(** X15.  Every weight a rebalance asks for is a finite number: positive
    and at most 1 for a symbol of the long side, negative and at least -1
    for a symbol of the short side. *)
Theorem OnData_weights_within_unit
    (Securities : Symbol → Security.t)
    (self self' : MovingAveragesDistance.t) (acts : list action)
    (s : Symbol) (w : float64) :
  MovingAveragesDistance.selection_flag self = true →
  MovingAveragesDistance.OnData Securities self = Ok (self', acts) →
  SetHoldings s w ∈ acts →
  ∃ q, w = Finite q
       ∧ ((s ∈ MovingAveragesDistance.long self ∧ (0 < q)%Qc ∧ (q ≤ 1)%Qc)
          ∨ (s ∈ MovingAveragesDistance.short self
             ∧ (q < 0)%Qc ∧ (Qcopp 1 ≤ q)%Qc)).
Proof.
  intros Hflag Ho Hin. rewrite OnData_rebalance in Ho by done.
  injection Ho as _ <-.
  apply elem_of_cons in Hin as [[=]|Hin].
  apply elem_of_app in Hin as [Hin|Hin];
    apply elem_of_allocations in Hin as (Hs & _ & ->); eexists; (split; [done|]).
  - left. split; [done|]. rewrite long_weight_value.
    apply Qcinv_of_nat_range. intros H0%nil_length_inv.
    rewrite H0 in Hs. inversion Hs.
  - right. split; [done|]. rewrite short_weight_value.
    destruct (Qcinv_of_nat_range
                (length (MovingAveragesDistance.short self))) as [Hpos Hle];
      [intros H0%nil_length_inv; rewrite H0 in Hs; inversion Hs|].
    split; [by apply Qc_opp_neg|by apply Qcopp_le_compat].
Qed.

Lemma OnData_weights_within_unit_witness :
  ∃ q, Finite (Qc_of_Z 1 / Qc_of_nat 2)%Qc = Finite q
       ∧ (("BBB" ∈ MovingAveragesDistance.long fixture_ranked
           ∧ (0 < q)%Qc ∧ (q ≤ 1)%Qc)
          ∨ ("BBB" ∈ MovingAveragesDistance.short fixture_ranked
             ∧ (q < 0)%Qc ∧ (Qcopp 1 ≤ q)%Qc)).
Proof.
  apply (OnData_weights_within_unit fixture_Securities fixture_ranked
           fixture_done
           [Liquidate;
            SetHoldings "BBB" (Finite (Qc_of_Z 1 / Qc_of_nat 2)%Qc);
            SetHoldings "CCC" (Finite (Qc_of_Z (-1) / Qc_of_nat 1)%Qc)]).
  - vm_compute. reflexivity.
  - vm_compute. reflexivity.
  - apply list_elem_of_further, list_elem_of_here.
Defined.

(** ** A ready window *)

(** X16.  A window that is ready stays ready under [update], whatever its
    period: it keeps its symbol and its length, takes the new price as its
    newest and drops its oldest one. *)
Theorem SymbolData_update_ready (sd : SymbolData.t) (price : float64) :
  SymbolData.is_ready sd = true →
  SymbolData.is_ready (SymbolData.update sd price) = true
  ∧ SymbolData.Symbol (SymbolData.update sd price) = SymbolData.Symbol sd
  ∧ SymbolData.return_prices (SymbolData.update sd price)
    = take (length (SymbolData.return_prices sd))
           (price :: SymbolData.return_prices sd).
Proof.
  unfold SymbolData.is_ready, RollingWindow.IsReady.
  rewrite !bool_decide_eq_true. intros Hready.
  cbn [SymbolData.update SymbolData.Prices SymbolData.Symbol].
  rewrite Add_Count.
  split_and!; [cbn [RollingWindow.Add RollingWindow.Size]; lia|done|].
  unfold SymbolData.return_prices, RollingWindow.iter, SymbolData.update,
    RollingWindow.Add.
  cbn [SymbolData.Prices RollingWindow.items RollingWindow.Size].
  unfold RollingWindow.Count in Hready.
  rewrite reverse_drop, reverse_snoc, length_reverse, !length_app.
  cbn [length]. f_equal. lia.
Qed.

Lemma SymbolData_update_ready_witness :
  let sd := SymbolData.feed (SymbolData.init "SPY" 200)
              (replicate 200 (float_of_Z 1)) in
  SymbolData.is_ready (SymbolData.update sd (float_of_Z 2)) = true
  ∧ SymbolData.Symbol (SymbolData.update sd (float_of_Z 2)) = SymbolData.Symbol sd
  ∧ SymbolData.return_prices (SymbolData.update sd (float_of_Z 2))
    = take (length (SymbolData.return_prices sd))
           (float_of_Z 2 :: SymbolData.return_prices sd).
Proof.
  intros sd. apply (SymbolData_update_ready sd (float_of_Z 2)).
  vm_compute. reflexivity.
Defined.

(** ** The fee model *)



(** ** From the coarse selection to the orders *)

Section pipeline.
Import MovingAveragesDistance.

(** A symbol picked from [MAD] belongs to a listed stock of the input and
    has a window. *)
Lemma selected_has_window self fine MAD x :
  FineSelection_MAD self fine = Ok MAD →
  x ∈ select_long MAD ++ select_short MAD →
  is_Some (data self !! x)
  ∧ ∃ stock, stock ∈ fine ∧ FineFundamental.Symbol stock = x.
Proof.
  intros HM [v Hv]%select_from_MAD.
  apply (dict_get_elem _ _ _ (FineSelection_MAD_NoDup _ _ _ HM)) in Hv.
  rewrite (compute_MAD_lookup _ _ _ _ HM) in Hv.
  case_decide as Hx; [|done]. split.
  - by destruct (data self !! x).
  - apply list_elem_of_fmap in Hx as (stock & -> & [_ Hin]%list_elem_of_filter).
    by exists stock.
Qed.

End pipeline.

(** X18.  The fine selection cannot fail on what the coarse selection
    returned: if every stock handed to it carries a symbol of the list the
    coarse selection returned, it returns, and with symbols of that list
    only. *)
Theorem CoarseSelection_then_FineSelection
    (History : Symbol → nat → list float64)
    (self self' : MovingAveragesDistance.t)
    (coarse : list CoarseFundamental.t) (ranked : list Symbol)
    (fine : list FineFundamental.t) :
  MovingAveragesDistance.CoarseSelectionFunction History self coarse
  = Ok (self', Selected ranked) →
  (∀ x, x ∈ fine → FineFundamental.Symbol x ∈ ranked) →
  ∃ self'' ret,
    MovingAveragesDistance.FineSelectionFunction self' fine = Ok (self'', ret)
    ∧ ∀ x, x ∈ ret → x ∈ ranked.
Proof.
  intros Hc Hfine.
  assert (Hknown : all_known self' fine).
  { intros x Hx _. specialize (Hfine x Hx).
    destruct (MovingAveragesDistance.selection_flag self) eqn:Hflag.
    - rewrite CoarseSelectionFunction_selected in Hc by done.
      injection Hc as <- <-.
      apply subseteq_take, list_elem_of_filter in Hfine as [Hr _].
      apply Is_true_true in Hr. unfold ready_in in Hr.
      cbn [MovingAveragesDistance.data MovingAveragesDistance.set_data].
      by destruct (warmed_data History self coarse !! FineFundamental.Symbol x).
    - rewrite CoarseSelectionFunction_unchanged in Hc by done. done. }
  destruct (FineSelection_MAD_Ok _ _ Hknown) as [MAD HM].
  eexists _, _. split; [by apply FineSelectionFunction_unfold|].
  intros x Hx.
  apply (selected_has_window _ _ _ _ HM) in Hx as (_ & stock & Hin & <-).
  by apply Hfine.
Qed.

Lemma CoarseSelection_then_FineSelection_witness :
  ∃ self'' ret,
    MovingAveragesDistance.FineSelectionFunction fixture_warm fixture_fine
    = Ok (self'', ret)
    ∧ ∀ x, x ∈ ret → x ∈ ["BBB"; "ZZZ"; "AAA"; "DDD"; "CCC"].
Proof.
  apply (CoarseSelection_then_FineSelection fixture_History fixture_day
           fixture_warm fixture_coarse).
  - apply fixture_coarse_selected.
  - intros x Hx. unfold fixture_fine in Hx.
    repeat (apply elem_of_cons in Hx as [->|Hx]; [elem_of_literal|]).
    inversion Hx.
Defined.

(** X19.  In every state the algorithm can reach, each symbol on the long
    or the short list has a window. *)
Theorem reachable_sides_have_windows
    (self : MovingAveragesDistance.t) (x : Symbol) :
  MovingAveragesDistance.reachable self →
  x ∈ MovingAveragesDistance.long self ++ MovingAveragesDistance.short self →
  is_Some (MovingAveragesDistance.data self !! x).
Proof.
  intros Hreach. revert x. revert self Hreach.
  apply (rtc_ind_r
           (λ self, ∀ x, x ∈ MovingAveragesDistance.long self
                         ++ MovingAveragesDistance.short self →
                    is_Some (MovingAveragesDistance.data self !! x))).
  - intros x H. inversion H.
  - intros self self' _ Hstep IH x.
    destruct Hstep as [History st coarse st' u Hc|st fine st' ret Hf
                      |Securities st st' acts Ho|st].
    + assert (Hsame : MovingAveragesDistance.long st'
                      = MovingAveragesDistance.long st
                      ∧ MovingAveragesDistance.short st'
                        = MovingAveragesDistance.short st).
      { destruct (MovingAveragesDistance.selection_flag st) eqn:Hflag.
        - rewrite CoarseSelectionFunction_selected in Hc by done.
          by injection Hc as <- _.
        - rewrite CoarseSelectionFunction_unchanged in Hc by done.
          by injection Hc as <- _. }
      destruct Hsame as [-> ->]. intros [sd Hsd]%IH.
      by rewrite (CoarseSelection_feeds_known_windows_aux _ _ _ _ _ _ _ Hc Hsd).
    + apply FineSelectionFunction_inv in Hf as (MAD & HM & -> & _).
      intros Hx. by apply (selected_has_window _ _ _ _ HM) in Hx as [? _].
    + destruct (MovingAveragesDistance.selection_flag st) eqn:Hflag.
      * rewrite OnData_rebalance in Ho by done. injection Ho as <- _.
        intros H. inversion H.
      * rewrite OnData_idle in Ho by done. injection Ho as <- _. apply IH.
    + apply IH.
Qed.

Lemma reachable_sides_have_windows_witness :
  is_Some (MovingAveragesDistance.data fixture_ranked !! "CCC").
Proof.
  apply (reachable_sides_have_windows fixture_ranked "CCC").
  - apply fixture_ranked_reachable.
  - elem_of_literal.
Defined.
